(** * infra-logging: normalisation and analysis of index metadata

    A shallow embedding of [src/infra-logging.py]: the normaliser
    [refine_data], the three reports of class [AnalyzeData], the two data
    sources and [main].

    Modelling conventions.
    - Python [int] is [Z] (unbounded).
    - Python [float] is IEEE 754 binary64.  A finite float is modelled by
      the rational it denotes ([Q]); an operation on floats is the exact
      rational operation followed by [b64_round], the rounding to the
      nearest binary64 value, ties to the even significand, with gradual
      underflow.  A result of magnitude [2^1024] or more after rounding is
      an overflow.  The sign of a zero is not represented.
    - Python [str] is the sequence of its code points ([PyStr]).
    - A value read from JSON is a [PyVal]; a raw record is any [PyVal]
      (normally a [VDict], a [gmap] from field names to values).
    - The dicts built by [refine_data] carry the fixed keys ["index"],
      ["size"], ["shards"]; [print_least_balanced] later writes the keys
      ["balance_ratio"] and ["rec_shard_count"] into the same objects.
      Such a dict is the record [Idx.t]; a key that has not been written
      yet is [None].  Its size is a float, as [refine_data] stores one.
    - Exceptions are values of [PyExc]; a computation that may raise has
      type [Exc A].
    - [print] is modelled by the list of lines it emits, each line
      carrying the value that is formatted into it; the formatting itself
      and the output stream are not modelled. *)

From Stdlib Require Import ZArith NArith QArith Qround Qabs Qpower String Ascii List Lia Lqa Sorting.Sorted Sorting.Permutation.
From stdpp Require Import gmap strings list fin_maps.

#[local] Set Warnings "-register-all".
#[local] Open Scope Z_scope.

(** ** Exceptions *)

Inductive PyExc : Type :=
| KeyError
| ValueError
| TypeError
| OverflowError
| ZeroDivisionError.

Definition Exc (A : Type) : Type := (PyExc + A)%type.

Definition raise {A : Type} (e : PyExc) : Exc A := inl e.
Definition ret {A : Type} (a : A) : Exc A := inr a.
Definition bind {A B : Type} (m : Exc A) (k : A -> Exc B) : Exc B :=
  match m with
  | inl e => inl e
  | inr a => k a
  end.

Notation "'let*' x ':=' m 'in' k" := (bind m (fun x => k))
  (at level 10, x name, m at level 100, k at level 200).

Definition raises {A : Type} (m : Exc A) : bool :=
  match m with inl _ => true | inr _ => false end.

(** ** Binary64 arithmetic *)

(** The integer nearest to [q], ties to the even one. *)
Definition round_half_even (q : Q) : Z :=
  let f := Qfloor q in
  match (q - inject_Z f ?= 1 # 2)%Q with
  | Lt => f
  | Gt => f + 1
  | Eq => if Z.even f then f else f + 1
  end.

(** [floor(log2 q)] for [q > 0]. *)
Definition ilog2 (q : Q) : Z :=
  let e0 := Z.log2 (Qnum q) - Z.log2 (Z.pos (Qden q)) in
  if Qle_bool (2 ^ e0) q then e0 else e0 - 1.

(** The exponent of the unit in the last place of the binade of [q]: 53
    significant bits, and no exponent below that of the subnormals. *)
Definition b64_exp (q : Q) : Z := Z.max (ilog2 (Qabs q) - 52) (-1074).

(** The binary64 value nearest to [q], ties to even. *)
Definition b64_round (q : Q) : Q :=
  if Qeq_bool q 0 then 0%Q
  else (inject_Z (round_half_even (q * 2 ^ (- b64_exp q))) * 2 ^ b64_exp q)%Q.

(** The rounded value is beyond the largest finite float. *)
Definition b64_overflow (q : Q) : bool := Qle_bool (2 ^ 1024) (Qabs (b64_round q)).

(** [g] is the value of a float: rounding leaves it as it is. *)
Definition b64_repr (g : Q) : Prop := (b64_round g == g)%Q.

(** [z] is the integer nearest to [t], the even one of the two at a tie. *)
Definition rhe_rel (t : Q) (z : Z) : Prop :=
  (- (1 # 2) < inject_Z z - t /\ inject_Z z - t < 1 # 2)%Q \/
  ((inject_Z z - t == 1 # 2 \/ inject_Z z - t == - (1 # 2))%Q /\ Z.even z = true).

(** The result of an arithmetic operation whose exact value is [q]. *)
Definition py_float_result (q : Q) : Exc Q :=
  if b64_overflow q then raise OverflowError else ret (b64_round q).

(** ** Values *)

(** A Python str: its code points. *)
Definition PyStr : Type := list N.

(** The str written as an ASCII literal in the source. *)
Definition str (s : string) : PyStr := map N_of_ascii (list_ascii_of_string s).

(** A Python float: a finite value, an infinity, or a NaN (the JSON decoder
    of Python accepts [Infinity] and [NaN]). *)
Inductive PyFloat : Type :=
| FFin (q : Q)
| FInf (neg : bool)
| FNaN.

Inductive PyVal : Type :=
| VNone
| VBool (b : bool)
| VInt (z : Z)
| VFloat (f : PyFloat)
| VStr (s : PyStr)
| VList (l : list PyVal)
| VDict (d : gmap PyStr PyVal).

(** ** Numeric conversions *)

(** [int(x)] on a finite float truncates toward zero. *)
Definition py_int_of_float (q : Q) : Z := Z.quot (Qnum q) (Z.pos (Qden q)).

(** [float(n)], the conversion applied to an int operand of a float
    operation: [OverflowError] when [n] is too large. *)
Definition py_float_of_int (n : Z) : Exc Q := py_float_result (inject_Z n).

(** [a / b] on two ints (true division): the correctly rounded quotient. *)
Definition py_int_truediv (a b : Z) : Exc Q :=
  if b =? 0 then raise ZeroDivisionError
  else py_float_result (inject_Z a / inject_Z b)%Q.

(** [x / n] with [x] a float and [n] an int: [n] is converted first. *)
Definition py_float_truediv (x : Q) (n : Z) : Exc Q :=
  let* y := py_float_of_int n in
  if Qeq_bool y 0 then raise ZeroDivisionError
  else ret (b64_round (x / y)).

(** [round(x, ndigits)] on a float: the decimal with [ndigits] places
    nearest to the value of [x], ties to even, converted back to a float. *)
Definition py_round (x : Q) (ndigits : nat) : Q :=
  let scale := 10 ^ Z.of_nat ndigits in
  b64_round (Qmake (round_half_even (x * inject_Z scale)) (Z.to_pos scale)).

Definition Qlt_bool (x y : Q) : bool := negb (Qle_bool y x).

(** *** [int(s)] on a string

    Optional surrounding whitespace, an optional sign, and decimal digits
    in which single underscores may separate digits.  Whitespace and
    digits are those of the Unicode database of CPython 3.11; the sign and
    the underscore are ASCII.  A literal of more than [MAX_STR_DIGITS]
    digits is refused (the default of [sys.set_int_max_str_digits]). *)

Definition is_space (c : N) : bool :=
  (((9 <=? c) && (c <=? 13)) || (c =? 32) || (c =? 133) || (c =? 160)
   || (c =? 5760) || ((8192 <=? c) && (c <=? 8202)) || (c =? 8232) || (c =? 8233)
   || (c =? 8239) || (c =? 8287) || (c =? 12288))%N.

(** The code points of the digits zero; the nine code points after each
    are the digits one to nine of the same script. *)
Definition decimal_zeros : list N :=
  [48; 1632; 1776; 1984; 2406; 2534; 2662; 2790; 2918; 3046; 3174; 3302; 3430;
   3558; 3664; 3792; 3872; 4160; 4240; 6112; 6160; 6470; 6608; 6784; 6800; 6992;
   7088; 7232; 7248; 42528; 43216; 43264; 43472; 43504; 43600; 44016; 65296;
   66720; 68912; 69734; 69872; 69942; 70096; 70384; 70736; 70864; 71248; 71360;
   71472; 71904; 72016; 72784; 73040; 73120; 92768; 92864; 93008; 120782; 120792;
   120802; 120812; 120822; 123200; 123632; 125264; 130032]%N.

(** The value of a decimal digit. *)
Definition to_decimal (c : N) : option Z :=
  match List.find (fun z => (z <=? c) && (c <? z + 10))%N decimal_zeros with
  | Some z => Some (Z.of_N (c - z))
  | None => None
  end.

Definition is_digit (c : N) : bool :=
  match to_decimal c with Some _ => true | None => false end.

Fixpoint skip_space (s : PyStr) : PyStr :=
  match s with
  | c :: s' => if is_space c then skip_space s' else s
  | [] => s
  end.

(** The digits after the first one; [acc] is the value read so far. *)
Fixpoint parse_digits (acc : Z) (s : PyStr) : option Z :=
  match s with
  | [] => Some acc
  | c :: s' =>
      match to_decimal c with
      | Some v => parse_digits (10 * acc + v) s'
      | None =>
          if (c =? 95)%N then
            match s' with
            | c' :: s'' =>
                match to_decimal c' with
                | Some v => parse_digits (10 * acc + v) s''
                | None => None
                end
            | [] => None
            end
          else if forallb is_space s then Some acc
          else None
      end
  end.

Definition parse_unsigned (s : PyStr) : option Z :=
  match s with
  | c :: s' =>
      match to_decimal c with
      | Some v => parse_digits v s'
      | None => None
      end
  | [] => None
  end.

Definition parse_int (s : PyStr) : option Z :=
  match skip_space s with
  | c :: s' =>
      if (c =? 45)%N then
        match parse_unsigned s' with Some z => Some (- z) | None => None end
      else if (c =? 43)%N then parse_unsigned s'
      else parse_unsigned (c :: s')
  | [] => None
  end.

Definition MAX_STR_DIGITS : nat := 4300.

Definition py_int_of_string (s : PyStr) : option Z :=
  if (length (List.filter is_digit s) <=? MAX_STR_DIGITS)%nat then parse_int s
  else None.

(** [int(v)]. *)
Definition py_int (v : PyVal) : Exc Z :=
  match v with
  | VInt z => ret z
  | VBool b => ret (if b then 1 else 0)
  | VFloat (FFin q) => ret (py_int_of_float q)
  | VFloat (FInf _) => raise OverflowError
  | VFloat FNaN => raise ValueError
  | VStr s =>
      match py_int_of_string s with
      | Some z => ret z
      | None => raise ValueError
      end
  | VNone | VList _ | VDict _ => raise TypeError
  end.

(** [v[k]] with a string key [k]. *)
Definition py_getitem (v : PyVal) (k : PyStr) : Exc PyVal :=
  match v with
  | VDict d =>
      match d !! k with
      | Some x => ret x
      | None => raise KeyError
      end
  | _ => raise TypeError
  end.

(** [for x in v]: the items the loop visits, or [TypeError] when [v] is not
    iterable.  A dict yields its keys, a string its characters.  The keys
    come in the order of the finite map, not in the insertion order of a
    Python dict. *)
Definition py_iter (v : PyVal) : Exc (list PyVal) :=
  match v with
  | VList l => ret l
  | VDict d => ret (map (fun kv => VStr (fst kv)) (map_to_list d))
  | VStr s => ret (map (fun c => VStr [c]) s)
  | VNone | VBool _ | VInt _ | VFloat _ => raise TypeError
  end.

(** ** The dicts of the refined data set *)

Module Idx.

Record t : Type := mk {
  index : PyVal;
  size : Q;
  shards : Z;
  balance_ratio : option Z;
  rec_shard_count : option Z
}.

(** [d['balance_ratio'] = v] and [d['rec_shard_count'] = v]. *)
Definition set_balance_ratio (v : Z) (d : t) : t :=
  mk (index d) (size d) (shards d) (Some v) (rec_shard_count d).
Definition set_rec_shard_count (v : Z) (d : t) : t :=
  mk (index d) (size d) (shards d) (balance_ratio d) (Some v).

(** [d['balance_ratio']] and [d['rec_shard_count']]: [KeyError] while the
    key has not been written. *)
Definition get_balance_ratio (d : t) : Exc Z :=
  match balance_ratio d with Some v => ret v | None => raise KeyError end.
Definition get_rec_shard_count (d : t) : Exc Z :=
  match rec_shard_count d with Some v => ret v | None => raise KeyError end.

(** Two dicts agree on the keys written by [refine_data]. *)
Definition same_canonical (d d' : t) : Prop :=
  index d' = index d /\ size d' = size d /\ shards d' = shards d.

End Idx.

(** ** Printed lines

    One constructor per [print] call of the source; the blank line that
    starts each heading is not represented. *)

Inductive Line : Type :=
| Text (s : string)
| LIndex (v : PyVal)
| LSize (q : Q)
| LShards (z : Z)
| LBalance (z : Z)
| LRecommended (z : Z)
| LErrors (l : list PyVal).

(** ** refine_data *)

(** The dict literal of the loop body, its items evaluated in order. *)
Definition refine_entry (index : PyVal) : Exc Idx.t :=
  let* name := py_getitem index (str "index") in
  let* raw_size := py_getitem index (str "pri.store.size") in
  let* bytes := py_int raw_size in
  let* gb := py_int_truediv bytes (1000 ^ 3) in
  let size := py_round gb 2 in
  let* raw_pri := py_getitem index (str "pri") in
  let* shards := py_int raw_pri in
  ret (Idx.mk name size shards None None).

(** The [for] loop with its [try]/[except]; [refined] and [errors] are the
    two lists the loop appends to. *)
Fixpoint refine_loop (data : list PyVal) (refined : list Idx.t) (errors : list PyVal)
  : list Idx.t * list PyVal :=
  match data with
  | [] => (refined, errors)
  | index :: rest =>
      match refine_entry index with
      | inr d => refine_loop rest (refined ++ [d]) errors
      | inl _ => refine_loop rest refined (errors ++ [index])
      end
  end.

(** [if errors: print(...)]. *)
Definition report_errors (errors : list PyVal) : list Line :=
  match errors with
  | [] => []
  | _ :: _ => [LErrors errors]
  end.

(** The returned list, and the lines printed during the call. *)
Definition refine_data (data : PyVal) : Exc (list Idx.t * list Line) :=
  let* items := py_iter data in
  let '(refined, errors) := refine_loop items [] [] in
  ret (refined, report_errors errors).

(** The value a call returns, and what it prints. *)
Definition returned_by (call : Exc (list Idx.t * list Line)) : Exc (list Idx.t) :=
  let* result := call in ret (fst result).

Definition printed_by (call : Exc (list Idx.t * list Line)) : Exc (list Line) :=
  let* result := call in ret (snd result).

Definition raw (name size pri : PyVal) : PyVal :=
  VDict (<[str "index" := name]> (<[str "pri.store.size" := size]> (<[str "pri" := pri]> ∅))).

(** ** sorted(xs, key=..., reverse=True)

    The keys are computed first, one call per item, then the items are
    ordered by decreasing key using only [<] on keys; items with equal keys
    keep their input order.  The order is the one a stable insertion
    produces: an item is placed after the items whose key is strictly
    greater and before all others. *)

Section PySorted.
Context {A K : Type}.
Variable lt : K -> K -> bool.

Fixpoint insert_desc (x : K * A) (l : list (K * A)) : list (K * A) :=
  match l with
  | [] => [x]
  | y :: l' => if lt (fst x) (fst y) then y :: insert_desc x l' else x :: l
  end.

Definition sort_desc (l : list (K * A)) : list (K * A) :=
  foldr insert_desc [] l.

Fixpoint decorate (key : A -> Exc K) (xs : list A) : Exc (list (K * A)) :=
  match xs with
  | [] => ret []
  | x :: xs' =>
      let* k := key x in
      let* rest := decorate key xs' in
      ret ((k, x) :: rest)
  end.

Definition py_sorted_reverse (key : A -> Exc K) (xs : list A) : Exc (list A) :=
  let* decorated := decorate key xs in
  ret (map snd (sort_desc decorated)).

(** [p] may stand before [q] in a list sorted by decreasing key. *)
Definition desc (p q : K * A) : Prop := lt (fst p) (fst q) = false.

(** The sorted list for a key function [f] that never raises. *)
Variable f : A -> K.

Definition deco (x : A) : K * A := (f x, x).

Definition sort_by (xs : list A) : list A :=
  map snd (sort_desc (map deco xs)).

(** The key of [y] is not smaller than the key of [x]. *)
Definition not_below (x y : A) : bool := negb (lt (f y) (f x)).

End PySorted.

(** ** class AnalyzeData *)

Module AnalyzeData.

(** The outcome of a method call: [self.data] after the call, the lines
    printed, and the exception that ended the call, if any.  The elements
    of [self.data] are distinct dict objects ([refine_data] builds a fresh
    one per entry), so an object is identified by its position. *)
Record Run : Type := mkRun {
  data : list Idx.t;
  printed : list Line;
  raised : option PyExc
}.

(** A [for] loop whose body only prints. *)
Fixpoint print_each (body : Idx.t -> Exc (list Line)) (l : list Idx.t) (out : list Line)
  : list Line * option PyExc :=
  match l with
  | [] => (out, None)
  | index :: rest =>
      match body index with
      | inl e => (out, Some e)
      | inr lines => print_each body rest (out ++ lines)
      end
  end.

Definition sorted_largest_index (self_data : list Idx.t) : Exc (list Idx.t) :=
  py_sorted_reverse Qlt_bool (fun x => ret (Idx.size x)) self_data.

Definition print_largest_indexes (self_data : list Idx.t) : Run :=
  let out := [Text "Printing largest indexes by storage size"] in
  match sorted_largest_index self_data with
  | inl e => mkRun self_data out (Some e)
  | inr sorted =>
      let '(out, e) :=
        print_each (fun index => ret [LIndex (Idx.index index); LSize (Idx.size index)])
                   (firstn 5 sorted) out in
      mkRun self_data out e
  end.

Definition sorted_largest_shard_count (self_data : list Idx.t) : Exc (list Idx.t) :=
  py_sorted_reverse Z.ltb (fun x => ret (Idx.shards x)) self_data.

Definition print_most_shards (self_data : list Idx.t) : Run :=
  let out := [Text "Printing largest indexes by shard count"] in
  match sorted_largest_shard_count self_data with
  | inl e => mkRun self_data out (Some e)
  | inr sorted =>
      let '(out, e) :=
        print_each (fun index => ret [LIndex (Idx.index index); LShards (Idx.shards index)])
                   (firstn 5 sorted) out in
      mkRun self_data out e
  end.

Definition SHARD_SZ_GB : Z := 30.

(** The body of the first loop of [print_least_balanced] is two statements.
    Each gives the dict after it and the exception that interrupted it, if
    any.  First [index['balance_ratio'] = int(index['size'] / index['shards'])]. *)
Definition assign_balance_ratio (index : Idx.t) : Idx.t * option PyExc :=
  match py_float_truediv (Idx.size index) (Idx.shards index) with
  | inl e => (index, Some e)
  | inr ratio => (Idx.set_balance_ratio (py_int_of_float ratio) index, None)
  end.

(** Then the [if]/[elif]/[else] that writes [rec_shard_count]. *)
Definition assign_rec_shard_count (index : Idx.t) : Idx.t * option PyExc :=
  if Qle_bool (inject_Z SHARD_SZ_GB) (Idx.size index) then
    match py_float_truediv (Idx.size index) SHARD_SZ_GB with
    | inl e => (index, Some e)
    | inr n => (Idx.set_rec_shard_count (py_int_of_float n) index, None)
    end
  else if Qlt_bool 0 (Idx.size index)
          && Qlt_bool (Idx.size index) (inject_Z SHARD_SZ_GB) then
    (Idx.set_rec_shard_count 1 index, None)
  else
    (Idx.set_rec_shard_count 0 index, None).

Definition balance_body (index : Idx.t) : Idx.t * option PyExc :=
  match assign_balance_ratio index with
  | (index, Some e) => (index, Some e)
  | (index, None) => assign_rec_shard_count index
  end.

(** The first loop: the dicts are updated in place, in order; an exception
    leaves the dicts not yet visited as they were. *)
Fixpoint balance_loop (self_data : list Idx.t) : list Idx.t * option PyExc :=
  match self_data with
  | [] => ([], None)
  | index :: rest =>
      match balance_body index with
      | (index', Some e) => (index' :: rest, Some e)
      | (index', None) =>
          let '(rest', e) := balance_loop rest in
          (index' :: rest', e)
      end
  end.

Definition sorted_least_balanced (self_data : list Idx.t) : Exc (list Idx.t) :=
  py_sorted_reverse Z.ltb Idx.get_balance_ratio self_data.

Definition print_balance (index : Idx.t) : Exc (list Line) :=
  let* ratio := Idx.get_balance_ratio index in
  let* n := Idx.get_rec_shard_count index in
  ret [LIndex (Idx.index index); LSize (Idx.size index); LShards (Idx.shards index);
       LBalance ratio; LRecommended n].

Definition print_least_balanced (self_data : list Idx.t) : Run :=
  match balance_loop self_data with
  | (self_data, Some e) => mkRun self_data [] (Some e)
  | (self_data, None) =>
      match sorted_least_balanced self_data with
      | inl e => mkRun self_data [] (Some e)
      | inr sorted =>
          let '(out, e) :=
            print_each print_balance (firstn 5 sorted)
                       [Text "Printing least balanced indexes"] in
          mkRun self_data out e
      end
  end.

End AnalyzeData.

Definition rec0 (name : string) (size : Q) (shards : Z) : Idx.t :=
  Idx.mk (VStr (str name)) size shards None None.

(** The float nearest to a decimal literal. *)
Definition float (q : Q) : Q := b64_round q.


(** * Closed forms used in the statements *)

(** ** The rankings behind the reports

    [sorted_largest_index[:5]] and [sorted_largest_shard_count[:5]], and
    the lines printed for one item. *)

Definition top_by_size (self_data : list Idx.t) : list Idx.t :=
  firstn 5 (sort_by Qlt_bool Idx.size self_data).

Definition top_by_shards (self_data : list Idx.t) : list Idx.t :=
  firstn 5 (sort_by Z.ltb Idx.shards self_data).

Definition size_lines (index : Idx.t) : list Line :=
  [LIndex (Idx.index index); LSize (Idx.size index)].

Definition shards_lines (index : Idx.t) : list Line :=
  [LIndex (Idx.index index); LShards (Idx.shards index)].

(** ** The first loop of [print_least_balanced] in closed form *)

(** The largest magnitude an int may have to be converted to a float is
    just below [FLOAT_LIMIT]. *)
Definition FLOAT_LIMIT : Z := 2 ^ 1024 - 2 ^ 970.

(** The exception [size / shards] raises, if any: it depends on the shard
    count only. *)
Definition division_error (shards : Z) : option PyExc :=
  if FLOAT_LIMIT <=? Z.abs shards then Some OverflowError
  else if shards =? 0 then Some ZeroDivisionError
  else None.

(** The exception that ends the first loop, if any: that of the first
    record whose division raises. *)
Fixpoint first_error (self_data : list Idx.t) : option PyExc :=
  match self_data with
  | [] => None
  | index :: rest =>
      match division_error (Idx.shards index) with
      | Some e => Some e
      | None => first_error rest
      end
  end.

(** What the body writes into a dict whose division does not raise. *)
Definition ratio (size : Q) (shards : Z) : Z :=
  py_int_of_float (b64_round (size / b64_round (inject_Z shards))).

Definition recommended (size : Q) : Z :=
  if Qle_bool 30 size then py_int_of_float (b64_round (size / 30))
  else if Qlt_bool 0 size && Qlt_bool size 30 then 1
  else 0.

Definition balanced (index : Idx.t) : Idx.t :=
  Idx.mk (Idx.index index) (Idx.size index) (Idx.shards index)
         (Some (ratio (Idx.size index) (Idx.shards index)))
         (Some (recommended (Idx.size index))).

Definition zero_shards (index : Idx.t) : bool := Idx.shards index =? 0.

(** The size is a float of magnitude below [2^53]. *)
Definition moderate (size : Q) : Prop :=
  b64_repr size /\ (Qabs size < 2 ^ 53)%Q.

Definition ratio_key (index : Idx.t) : Z :=
  match Idx.balance_ratio index with Some v => v | None => 0 end.

Definition count_key (index : Idx.t) : Z :=
  match Idx.rec_shard_count index with Some v => v | None => 0 end.

Definition balance_lines (index : Idx.t) : list Line :=
  [LIndex (Idx.index index); LSize (Idx.size index); LShards (Idx.shards index);
   LBalance (ratio_key index); LRecommended (count_key index)].

(** [sorted_least_balanced[:5]] when the first loop has completed. *)
Definition least_balanced (self_data : list Idx.t) : list Idx.t :=
  firstn 5 (sort_by Z.ltb ratio_key (map balanced self_data)).

(** ** The two output lists of [refine_data] in closed form *)

Definition valid_of (items : list PyVal) : list Idx.t :=
  flat_map (fun x => match refine_entry x with inr d => [d] | inl _ => [] end) items.

Definition invalid_of (items : list PyVal) : list PyVal :=
  List.filter (fun x => raises (refine_entry x)) items.


Definition is_nonempty_string (v : PyVal) : bool :=
  match v with
  | VStr (_ :: _) => true
  | _ => false
  end.

(** The characters that may occur in a string accepted by [int]: digits,
    whitespace, the underscore and the two signs. *)
Definition int_char (c : N) : bool :=
  (is_digit c || is_space c || (c =? 95) || (c =? 43) || (c =? 45))%N.

(** What [refine_data] makes of one item, spelled out: a record for a dict
    that has the three fields, whose size and shard count convert through
    [int] and whose size in bytes divided by [1000**3] is within the float
    range; nothing for any other item. *)
Definition converted (x : PyVal) : option Idx.t :=
  match x with
  | VDict d =>
      match d !! str "index", d !! str "pri.store.size", d !! str "pri" with
      | Some name, Some raw_size, Some raw_pri =>
          match py_int raw_size, py_int raw_pri with
          | inr bytes, inr shards =>
              let gb := (inject_Z bytes / inject_Z (1000 ^ 3))%Q in
              if b64_overflow gb then None
              else Some (Idx.mk name (py_round (b64_round gb) 2) shards None None)
          | _, _ => None
          end
      | _, _, _ => None
      end
  | _ => None
  end.

(** * The data sources and [main] *)

(** What the program prints besides the lines of [refine_data] and of the
    reports: the date of each query and the failure of a request. *)
Inductive Event : Type :=
| Printed (l : Line)
| PrintedDate (ordinal : Z)
| PrintedFailure (ordinal : Z) (err : string).

(** ** get_data_from_file

    The outcome of opening and decoding the file is a parameter: the
    message of the exception raised, or the decoded value. *)
Definition get_data_from_file (file : string + PyVal) : list Event * PyVal :=
  match file with
  | inr v => ([Printed (Text "Getting data from JSON file")], v)
  | inl err =>
      ([Printed (Text "Getting data from JSON file");
        Printed (Text (String.append "An error occurred: " err))],
       VNone)
  end.

(** ** get_data_from_server

    A date is its proleptic Gregorian ordinal (1 is 0001-01-01).  The HTTP
    exchange of one day is a parameter: the outcome of
    [requests.get(query).json()] for the query built from the endpoint and
    the date. *)
Inductive Response : Type :=
| RequestFailed (err : string)
| Failed (e : PyExc)
| Json (v : PyVal).

(** The body of the loop for the offsets [i] still to visit; a date before
    the first one makes the subtraction raise. *)
Fixpoint server_loop (fetch : Z -> Response) (today : Z) (offsets : list nat)
    (all_data : list PyVal) (out : list Event) : list Event * Exc (list PyVal) :=
  match offsets with
  | [] => (out, ret all_data)
  | i :: rest =>
      let curr_date := today - Z.of_nat i in
      if curr_date <? 1 then (out, raise OverflowError)
      else
        let out := out ++ [PrintedDate curr_date] in
        match fetch curr_date with
        | RequestFailed err =>
            server_loop fetch today rest all_data (out ++ [PrintedFailure curr_date err])
        | Failed e => (out, raise e)
        | Json daily_data =>
            match py_iter daily_data with
            | inl e => (out, raise e)
            | inr items => server_loop fetch today rest (all_data ++ items) out
            end
        end
  end.

Definition get_data_from_server (fetch : Z -> Response) (today days : Z)
  : list Event * Exc (list PyVal) :=
  server_loop fetch today (seq 0 (Z.to_nat days)) []
              [Printed (Text "Getting data from server...")].

(** ** main *)

(** [len(v)]. *)
Definition py_len (v : PyVal) : Exc Z :=
  match v with
  | VList l => ret (Z.of_nat (length l))
  | VDict d => ret (Z.of_nat (size d))
  | VStr s => ret (Z.of_nat (length s))
  | VNone | VBool _ | VInt _ | VFloat _ => raise TypeError
  end.

Inductive ExitMessage : Type :=
| FileError
| ApiError (e : PyExc).

(** How a run ends: it returns, it leaves through [sys.exit], or an
    exception reaches the top. *)
Inductive Exit : Type :=
| Completed
| SysExit (msg : ExitMessage)
| Uncaught (e : PyExc).

Record MainRun : Type := mkMain {
  events : list Event;
  exit : Exit
}.

(** The three reports, in the order [main] calls them on one
    [AnalyzeData] object. *)
Definition run_reports (data : list Idx.t) (out : list Event) : MainRun :=
  let r1 := AnalyzeData.print_largest_indexes data in
  let out := out ++ map Printed (AnalyzeData.printed r1) in
  match AnalyzeData.raised r1 with
  | Some e => mkMain out (Uncaught e)
  | None =>
      let r2 := AnalyzeData.print_most_shards (AnalyzeData.data r1) in
      let out := out ++ map Printed (AnalyzeData.printed r2) in
      match AnalyzeData.raised r2 with
      | Some e => mkMain out (Uncaught e)
      | None =>
          let r3 := AnalyzeData.print_least_balanced (AnalyzeData.data r2) in
          let out := out ++ map Printed (AnalyzeData.printed r3) in
          match AnalyzeData.raised r3 with
          | Some e => mkMain out (Uncaught e)
          | None => mkMain out Completed
          end
      end
  end.

(** [main] from [data = refine_data(raw_data)] on. *)
Definition refine_and_analyze (raw_data : PyVal) (out : list Event) : MainRun :=
  match refine_data raw_data with
  | inl e => mkMain out (Uncaught e)
  | inr (data, lines) =>
      let out := out ++ map Printed lines in
      match data with
      | [] => mkMain (out ++ [Printed (Text "Data could not be analyzed.")]) Completed
      | _ :: _ => run_reports data out
      end
  end.

(** [main] after the command line is parsed: [debug] and [days] are the
    parsed arguments, [file], [fetch] and [today] what the file system, the
    server and the clock answer. *)
Definition main (debug : bool) (days : Z)
    (file : string + PyVal) (fetch : Z -> Response) (today : Z) : MainRun :=
  if debug then
    let '(out, raw_data) := get_data_from_file file in
    match raw_data with
    | VNone => mkMain out (SysExit FileError)
    | _ =>
        match py_len raw_data with
        | inl e => mkMain out (Uncaught e)
        | inr n =>
            let out :=
              if n =? 0 then out ++ [Printed (Text "JSON file contains no entries.")]
              else out in
            refine_and_analyze raw_data out
        end
    end
  else
    match get_data_from_server fetch today days with
    | (out, inl e) => mkMain out (SysExit (ApiError e))
    | (out, inr raw_data) => refine_and_analyze (VList raw_data) out
    end.

(** * More closed forms *)

(** The items one day adds to [all_data], and whether the day stops the
    retrieval. *)
Definition day_items (r : Response) : list PyVal :=
  match r with
  | Json v => match py_iter v with inr items => items | inl _ => [] end
  | RequestFailed _ | Failed _ => []
  end.

Definition day_error (r : Response) : option PyExc :=
  match r with
  | Failed e => Some e
  | Json v => match py_iter v with inl e => Some e | inr _ => None end
  | RequestFailed _ => None
  end.

(** What one day prints. *)
Definition day_events (fetch : Z -> Response) (today : Z) (i : nat) : list Event :=
  let curr_date := today - Z.of_nat i in
  PrintedDate curr_date
    :: match fetch curr_date with
       | RequestFailed err => [PrintedFailure curr_date err]
       | Failed _ | Json _ => []
       end.

(** The day at offset [i] neither underflows the calendar nor stops the
    retrieval. *)
Definition day_passes (fetch : Z -> Response) (today : Z) (i : nat) : Prop :=
  1 <= today - Z.of_nat i /\ day_error (fetch (today - Z.of_nat i)) = None.

(** The lines of the three reports. *)
Definition size_report (data : list Idx.t) : list Line :=
  Text "Printing largest indexes by storage size" :: flat_map size_lines (top_by_size data).

Definition shards_report (data : list Idx.t) : list Line :=
  Text "Printing largest indexes by shard count" :: flat_map shards_lines (top_by_shards data).

Definition balance_report (data : list Idx.t) : list Line :=
  Text "Printing least balanced indexes" :: flat_map balance_lines (least_balanced data).

(** A string of ASCII decimal digits and the number it denotes. *)
Definition digit_char (d : nat) : N := 48 + N.of_nat d.

Definition digits_string (ds : list nat) : PyStr := map digit_char ds.

Definition digits_value (ds : list nat) : Z :=
  fold_left (fun acc d => 10 * acc + Z.of_nat d) ds 0.

(** * Proof tools *)

(** Case analysis on the sign of [x] under an absolute value. *)
Ltac qabs x := let H := fresh "Habs" in pattern (Qabs x); apply Qabs_case; intros H.

(** * Sanity checks *)

Example int_str_plain : py_int_of_string (str "1500000000") = Some 1500000000.
Proof. vm_compute. reflexivity. Qed.

Example int_str_signed : py_int_of_string (str "  -42 ") = Some (-42).
Proof. vm_compute. reflexivity. Qed.

Example int_str_underscore : py_int_of_string (str "1_000") = Some 1000.
Proof. vm_compute. reflexivity. Qed.

Example int_str_fraction : py_int_of_string (str "1500000000.5") = None.
Proof. vm_compute. reflexivity. Qed.

Example int_str_exponent : py_int_of_string (str "15e-1") = None.
Proof. vm_compute. reflexivity. Qed.

Example int_str_empty : py_int_of_string (str "") = None.
Proof. vm_compute. reflexivity. Qed.

(** U+001C is whitespace for [str.isspace] but not for [int]. *)
Example int_str_separator : py_int_of_string [28; 51]%N = None.
Proof. vm_compute. reflexivity. Qed.

(** U+00A0 and U+3000 are whitespace, U+0663 is the digit three. *)
Example int_str_unicode : py_int_of_string [160; 1635; 95; 51; 12288]%N = Some 33.
Proof. vm_compute. reflexivity. Qed.

Example int_str_digit_limit :
  py_int_of_string (repeat 48%N 4300) = Some 0
  /\ py_int_of_string (repeat 48%N 4301) = None.
Proof. split; vm_compute; reflexivity. Qed.

(** [round(1234567891 / 1000**3, 2)] is the float [1.23]. *)
Example round_example :
  (let* gb := py_int_truediv 1234567891 (1000 ^ 3) in ret (py_round gb 2))
  = inr (float (123 # 100)).
Proof. vm_compute. reflexivity. Qed.

(** The float [0.125] is a tie and goes to the even hundredth. *)
Example round_tie_even : py_round (float (125 # 1000)) 2 = float (12 # 100).
Proof. vm_compute. reflexivity. Qed.

(** The float nearest to [0.005] is above it, so it is not a tie:
    [round(5000000 / 1000**3, 2)] is [0.01]. *)
Example round_binary_value :
  (let* gb := py_int_truediv 5000000 (1000 ^ 3) in ret (py_round gb 2))
  = inr (float (1 # 100)).
Proof. vm_compute. reflexivity. Qed.

(** The float nearest to [0.015] is below it. *)
Example round_binary_value_below :
  (let* gb := py_int_truediv 15000000 (1000 ^ 3) in ret (py_round gb 2))
  = inr (float (1 # 100)).
Proof. vm_compute. reflexivity. Qed.

Example truediv_overflow : py_int_truediv (10 ^ 400) (1000 ^ 3) = inl OverflowError.
Proof. vm_compute. reflexivity. Qed.

Example float_of_int_limit :
  py_float_of_int (2 ^ 1024 - 2 ^ 970) = inl OverflowError
  /\ raises (py_float_of_int (2 ^ 1024 - 2 ^ 970 - 1)) = false.
Proof. split; vm_compute; reflexivity. Qed.

Example float_truediv_order :
  py_float_truediv 1 (10 ^ 309) = inl OverflowError
  /\ py_float_truediv 1 0 = inl ZeroDivisionError.
Proof. split; vm_compute; reflexivity. Qed.

Example refine_example :
  refine_data (VList [raw (VStr (str "a")) (VStr (str "1234567891")) (VStr (str "3"));
                      raw (VStr (str "b")) (VStr (str "oops")) (VStr (str "3"))])
  = inr ([Idx.mk (VStr (str "a")) (float (123 # 100)) 3 None None],
         [LErrors [raw (VStr (str "b")) (VStr (str "oops")) (VStr (str "3"))]]).
Proof. vm_compute. reflexivity. Qed.

Example largest_example :
  AnalyzeData.printed
    (AnalyzeData.print_largest_indexes [rec0 "A" 50 1; rec0 "B" 10 1; rec0 "C" 100 1])
  = [Text "Printing largest indexes by storage size";
     LIndex (VStr (str "C")); LSize 100; LIndex (VStr (str "A")); LSize 50;
     LIndex (VStr (str "B")); LSize 10].
Proof. vm_compute. reflexivity. Qed.

Example balance_example :
  AnalyzeData.print_least_balanced [rec0 "A" 10 5; rec0 "B" 90 3]
  = AnalyzeData.mkRun
      [Idx.mk (VStr (str "A")) 10 5 (Some 2) (Some 1);
       Idx.mk (VStr (str "B")) 90 3 (Some 30) (Some 3)]
      [Text "Printing least balanced indexes";
       LIndex (VStr (str "B")); LSize 90; LShards 3; LBalance 30; LRecommended 3;
       LIndex (VStr (str "A")); LSize 10; LShards 5; LBalance 2; LRecommended 1]
      None.
Proof. vm_compute. reflexivity. Qed.

Example zero_shards_example :
  AnalyzeData.print_least_balanced [rec0 "A" 10 5; rec0 "B" 90 0; rec0 "C" 1 1]
  = AnalyzeData.mkRun
      [Idx.mk (VStr (str "A")) 10 5 (Some 2) (Some 1); rec0 "B" 90 0; rec0 "C" 1 1]
      [] (Some ZeroDivisionError).
Proof. vm_compute. reflexivity. Qed.

(** A shard count too large for a float makes the same division raise
    [OverflowError]. *)
Example huge_shards_example :
  AnalyzeData.print_least_balanced [rec0 "A" 10 (10 ^ 309); rec0 "B" 90 0]
  = AnalyzeData.mkRun [rec0 "A" 10 (10 ^ 309); rec0 "B" 90 0] [] (Some OverflowError).
Proof. vm_compute. reflexivity. Qed.

(** The ways an entry can be malformed: a missing field, a value that is
    not a number, a value of the wrong type, an entry that is not a dict,
    a size beyond the float range. *)
Example malformed_missing_field :
  refine_entry (VDict (<[str "index" := VStr (str "a")]> (<[str "pri" := VInt 1]> ∅)))
  = inl KeyError.
Proof. vm_compute. reflexivity. Qed.

Example malformed_not_a_number :
  refine_entry (raw (VStr (str "a")) (VStr (str "12kb")) (VInt 1)) = inl ValueError.
Proof. vm_compute. reflexivity. Qed.

Example malformed_wrong_type :
  refine_entry (raw (VStr (str "a")) VNone (VInt 1)) = inl TypeError.
Proof. vm_compute. reflexivity. Qed.

Example malformed_not_a_dict : refine_entry (VStr (str "error")) = inl TypeError.
Proof. vm_compute. reflexivity. Qed.

Example malformed_too_large :
  refine_entry (raw (VStr (str "a")) (VInt (10 ^ 400)) (VInt 1)) = inl OverflowError.
Proof. vm_compute. reflexivity. Qed.

(** [int] truncates toward zero: on a negative size the ratio is not the
    floor. *)
Example negative_size_truncates :
  Idx.balance_ratio (fst (AnalyzeData.balance_body (rec0 "n" (-10) 3))) = Some (-3)
  /\ Qfloor (-10 / 3) = -4.
Proof. split; vm_compute; reflexivity. Qed.

(** A shard count above [2^53] is rounded when it is converted for the
    division: the ratio of [2^53] GB over [2^53 + 1] shards is 1. *)
Example rounded_shards_ratio :
  Idx.balance_ratio (fst (AnalyzeData.balance_body (rec0 "n" (inject_Z (2 ^ 53)) (2 ^ 53 + 1))))
  = Some 1
  /\ Qfloor (inject_Z (2 ^ 53) / inject_Z (2 ^ 53 + 1)) = 0.
Proof. split; vm_compute; reflexivity. Qed.

(** A float byte count is truncated first: 5000000.5 bytes are 5000000. *)
Example float_size_example :
  refine_entry (raw (VStr (str "a")) (VFloat (FFin (10000001 # 2))) (VInt 1))
  = inr (Idx.mk (VStr (str "a")) (float (1 # 100)) 1 None None).
Proof. vm_compute. reflexivity. Qed.

(** Beyond [2^53] the recommended count can exceed the exact quotient, and
    the ratio it would give falls below 30. *)
Example huge_size_ratio :
  recommended (float (inject_Z 270215977642230272)) = 9007199254741010
  /\ ratio (float (inject_Z 270215977642230272)) 9007199254741010 = 29.
Proof. split; vm_compute; reflexivity. Qed.

(** * Facts *)

(** ** Facts about binary64 rounding *)

Section Binary64Facts.
#[local] Open Scope Q_scope.


Lemma pow2_pos e : 0 < 2 ^ e.
Proof. apply Qpower_0_lt. reflexivity. Qed.

Lemma pow2_add a b : 2 ^ (a + b) == 2 ^ a * 2 ^ b.
Proof. apply Qpower_plus. discriminate. Qed.

Lemma pow2_succ e : 2 ^ (e + 1) == 2 * 2 ^ e.
Proof. rewrite pow2_add. change (2 ^ 1) with 2. ring. Qed.

Lemma pow2_pred e : 2 ^ e == 2 * 2 ^ (e - 1).
Proof. rewrite <- pow2_succ. replace (e - 1 + 1)%Z with e by lia. reflexivity. Qed.

Lemma pow2_le a b : (a <= b)%Z -> 2 ^ a <= 2 ^ b.
Proof. intros H. apply Qpower_le_compat_l; [exact H | discriminate]. Qed.

Lemma pow2_lt a b : (a < b)%Z -> 2 ^ a < 2 ^ b.
Proof. intros H. apply Qpower_lt_compat_l; [exact H | reflexivity]. Qed.

Lemma pow2_le_inv a b : 2 ^ a <= 2 ^ b -> (a <= b)%Z.
Proof. intros H. eapply Qpower_le_compat_l_inv; [exact H | reflexivity]. Qed.

Lemma pow2_lt_inv a b : 2 ^ a < 2 ^ b -> (a < b)%Z.
Proof. intros H. eapply Qpower_lt_compat_l_inv; [exact H | reflexivity]. Qed.

Lemma pow2_Z n : (0 <= n)%Z -> inject_Z (2 ^ n) == 2 ^ n.
Proof. intros H. rewrite Zpower_Qpower by exact H. reflexivity. Qed.

Lemma pow2_cancel e : 2 ^ e * 2 ^ (- e) == 1.
Proof. rewrite <- pow2_add. replace (e + - e)%Z with 0%Z by lia. reflexivity. Qed.

Lemma pow2_cancel' e : 2 ^ (- e) * 2 ^ e == 1.
Proof. rewrite Qmult_comm. apply pow2_cancel. Qed.

Lemma Q_as_div q : q == inject_Z (Qnum q) / inject_Z (Z.pos (Qden q)).
Proof. destruct q as [n d]. apply Qmake_Qdiv. Qed.

Lemma ilog2_spec q : 0 < q -> 2 ^ ilog2 q <= q /\ q < 2 ^ (ilog2 q + 1).
Proof.
  intros Hq. unfold ilog2.
  set (n := Qnum q). set (d := Z.pos (Qden q)).
  assert (Hn : (0 < n)%Z) by (destruct q as [qn qd]; unfold Qlt in Hq; simpl in *; subst n; simpl; lia).
  assert (Hd : (0 < d)%Z) by (subst d; lia).
  destruct (Z.log2_spec n Hn) as [Hn1 Hn2]. destruct (Z.log2_spec d Hd) as [Hd1 Hd2].
  assert (Ha := Z.log2_nonneg n). assert (Hb := Z.log2_nonneg d).
  set (a := Z.log2 n) in *. set (b := Z.log2 d) in *.
  assert (Qn1 : 2 ^ a <= inject_Z n) by (rewrite <- pow2_Z by lia; rewrite <- Zle_Qle; exact Hn1).
  assert (Qn2 : inject_Z n < 2 * 2 ^ a).
  { rewrite <- pow2_succ, <- pow2_Z by lia. rewrite <- Zlt_Qlt. exact Hn2. }
  assert (Qd1 : 2 ^ b <= inject_Z d) by (rewrite <- pow2_Z by lia; rewrite <- Zle_Qle; exact Hd1).
  assert (Qd2 : inject_Z d < 2 * 2 ^ b).
  { rewrite <- pow2_succ, <- pow2_Z by lia. rewrite <- Zlt_Qlt. exact Hd2. }
  assert (Eq : q * inject_Z d == inject_Z n).
  { rewrite (Q_as_div q) at 1. fold n d. field. intros E. 
    assert (0 < inject_Z d) by (rewrite <- (Zlt_Qlt 0); exact Hd). lra. }
  assert (Pa := pow2_pos a). assert (Pb := pow2_pos b).
  assert (E0 : 2 ^ (a - b) * 2 ^ b == 2 ^ a).
  { rewrite <- pow2_add. replace (a - b + b)%Z with a by lia. reflexivity. }
  assert (P0 := pow2_pos (a - b)).
  assert (Qdpos : 0 < inject_Z d) by (rewrite <- (Zlt_Qlt 0); exact Hd).
  set (N := inject_Z n) in *. set (D := inject_Z d) in *. clearbody N D.
  destruct (Qle_bool (2 ^ (a - b)) q) eqn:Hc.
  - apply Qle_bool_iff in Hc. split; [exact Hc|].
    rewrite pow2_succ.
    (* q D = N < 2 A = 2 P B <= 2 P D *)
    apply Qnot_le_lt. intros Hle.
    assert (2 * 2 ^ (a - b) * D <= q * D) by (apply Qmult_le_compat_r; lra).
    assert (2 ^ (a - b) * 2 ^ b <= 2 ^ (a - b) * D) by (apply Qmult_le_l; lra).
    lra.
  - assert (Hlt : q < 2 ^ (a - b)).
    { apply Qnot_le_lt. intros Hle. apply Qle_bool_iff in Hle. congruence. }
    replace (a - b - 1 + 1)%Z with (a - b)%Z by lia. split; [|exact Hlt].
    assert (E1 := pow2_pred (a - b)). assert (P1 := pow2_pos (a - b - 1)).
    apply Qnot_lt_le. intros Hl.
    assert (q * D <= 2 ^ (a - b - 1) * D) by (apply Qmult_le_compat_r; lra).
    assert (2 ^ (a - b - 1) * D < 2 ^ (a - b - 1) * (2 * 2 ^ b)) by (apply Qmult_lt_l; lra).
    assert (2 ^ (a - b - 1) * (2 * 2 ^ b) == 2 ^ (a - b) * 2 ^ b) by (rewrite E1; ring).
    lra.
Qed.

Lemma ilog2_unique q e : 2 ^ e <= q -> q < 2 ^ (e + 1) -> ilog2 q = e.
Proof.
  intros H1 H2. assert (Hq : 0 < q) by (assert (P := pow2_pos e); lra).
  destruct (ilog2_spec q Hq) as [S1 S2].
  assert (e < ilog2 q + 1)%Z by (apply pow2_lt_inv; lra).
  assert (ilog2 q < e + 1)%Z by (apply pow2_lt_inv; lra).
  lia.
Qed.

Lemma ilog2_comp q q' : 0 < q -> q == q' -> ilog2 q = ilog2 q'.
Proof.
  intros Hq E. symmetry. destruct (ilog2_spec q Hq). apply ilog2_unique; rewrite <- E; assumption.
Qed.

Lemma ilog2_le q e : 0 < q -> q < 2 ^ e -> (ilog2 q < e)%Z.
Proof. intros Hq H. destruct (ilog2_spec q Hq). apply pow2_lt_inv. lra. Qed.

Lemma ilog2_ge q e : 2 ^ e <= q -> (e <= ilog2 q)%Z.
Proof.
  intros H. assert (Hq : 0 < q) by (assert (P := pow2_pos e); lra).
  destruct (ilog2_spec q Hq). assert (e < ilog2 q + 1)%Z by (apply pow2_lt_inv; lra). lia.
Qed.


Lemma Qfloor_unique z q : inject_Z z <= q -> q < inject_Z (z + 1) -> Qfloor q = z.
Proof.
  intros H1 H2. assert (A := Qfloor_le q). assert (B := Qlt_floor q).
  assert (z < Qfloor q + 1)%Z by (rewrite Zlt_Qlt; lra).
  assert (Qfloor q < z + 1)%Z by (rewrite Zlt_Qlt; lra).
  lia.
Qed.

Lemma round_half_even_comp q q' : q == q' -> round_half_even q = round_half_even q'.
Proof.
  intros E. unfold round_half_even. rewrite (Qfloor_comp _ _ E).
  assert (C : (q - inject_Z (Qfloor q') ?= 1 # 2) = (q' - inject_Z (Qfloor q') ?= 1 # 2)).
  { apply Qcompare_comp; [rewrite E|]; reflexivity. }
  rewrite C. reflexivity.
Qed.

Lemma round_half_even_spec t : rhe_rel t (round_half_even t).
Proof.
  unfold rhe_rel, round_half_even.
  assert (A := Qfloor_le t). assert (B := Qlt_floor t). rewrite inject_Z_plus in B.
  change (inject_Z 1) with 1 in B.
  destruct (Qcompare_spec (t - inject_Z (Qfloor t)) (1 # 2)) as [E|E|E].
  - right. destruct (Z.even (Qfloor t)) eqn:Ev.
    + split; [right; lra | exact Ev].
    + split; [left; rewrite inject_Z_plus; change (inject_Z 1) with 1; lra|].
      rewrite Z.even_add, Ev. reflexivity.
  - left. lra.
  - left. rewrite inject_Z_plus. change (inject_Z 1) with 1. lra.
Qed.

Lemma Zdiff_lt_1 a b : inject_Z a - inject_Z b < 1 -> (a <= b)%Z.
Proof.
  intros H. assert (a < b + 1)%Z; [|lia].
  rewrite Zlt_Qlt, inject_Z_plus. change (inject_Z 1) with 1. lra.
Qed.

Lemma Zdiff_le_1 a b : inject_Z a - inject_Z b <= 1 -> (a <= b + 1)%Z.
Proof.
  intros H. rewrite Zle_Qle, inject_Z_plus. change (inject_Z 1) with 1. lra.
Qed.

Lemma rhe_rel_unique t a b : rhe_rel t a -> rhe_rel t b -> a = b.
Proof.
  unfold rhe_rel. intros Ha Hb.
  assert (Even_adj : forall x y : Z, Z.even x = true -> Z.even y = true -> (x = y + 1)%Z -> False).
  { intros x y Hx Hy ->. rewrite Z.even_add, Hy in Hx. discriminate. }
  destruct Ha as [[A1 A2]|[[A|A] Ea]], Hb as [[B1 B2]|[[B|B] Eb]];
    try (assert (a <= b)%Z by (apply Zdiff_lt_1; lra));
    try (assert (b <= a)%Z by (apply Zdiff_lt_1; lra));
    try lia.
  - assert (a <= b + 1)%Z by (apply Zdiff_le_1; lra).
    destruct (Z.eq_dec a (b + 1)%Z) as [E|E]; [destruct (Even_adj a b Ea Eb E)|lia].
  - assert (b <= a + 1)%Z by (apply Zdiff_le_1; lra).
    destruct (Z.eq_dec b (a + 1)%Z) as [E|E]; [destruct (Even_adj b a Eb Ea E)|lia].
Qed.

Lemma round_half_even_unique t z : rhe_rel t z -> round_half_even t = z.
Proof. intros H. exact (rhe_rel_unique t _ _ (round_half_even_spec t) H). Qed.

Lemma round_half_even_Z z : round_half_even (inject_Z z) = z.
Proof. apply round_half_even_unique. left. lra. Qed.

Lemma round_half_even_opp t : round_half_even (- t) = (- round_half_even t)%Z.
Proof.
  apply round_half_even_unique. destruct (round_half_even_spec t) as [[A B]|[[A|A] E]].
  - left. rewrite inject_Z_opp. lra.
  - right. rewrite inject_Z_opp, Z.even_opp. split; [right; lra|exact E].
  - right. rewrite inject_Z_opp, Z.even_opp. split; [left; lra|exact E].
Qed.

Lemma round_half_even_near t :
  - (1 # 2) <= inject_Z (round_half_even t) - t /\ inject_Z (round_half_even t) - t <= 1 # 2.
Proof. destruct (round_half_even_spec t) as [[A B]|[[A|A] E]]; lra. Qed.

Lemma round_half_even_nearest t z :
  Qabs (inject_Z (round_half_even t) - t) <= Qabs (inject_Z z - t).
Proof.
  destruct (round_half_even_near t) as [A B].
  destruct (Z.eq_dec z (round_half_even t)) as [->|N]; [lra|].
  assert (C : 1 # 2 <= Qabs (inject_Z z - t)).
  { destruct (Z_lt_le_dec z (round_half_even t)) as [L|L].
    - assert (L' : (z + 1 <= round_half_even t)%Z) by lia.
      rewrite Zle_Qle, inject_Z_plus in L'. change (inject_Z 1) with 1 in L'.
      qabs (inject_Z z - t); lra.
    - assert (L' : (round_half_even t + 1 <= z)%Z) by lia.
      rewrite Zle_Qle, inject_Z_plus in L'. change (inject_Z 1) with 1 in L'.
      qabs (inject_Z z - t); lra. }
  qabs (inject_Z (round_half_even t) - t); lra.
Qed.

Lemma round_half_even_between t a b :
  inject_Z a <= t -> t <= inject_Z b -> (a <= round_half_even t <= b)%Z.
Proof.
  intros A B. destruct (round_half_even_near t) as [N1 N2].
  assert (Na := round_half_even_nearest t a). assert (Nb := round_half_even_nearest t b).
  split.
  - destruct (Z_lt_le_dec (round_half_even t) a) as [L|L]; [|exact L].
    assert (L' : (round_half_even t + 1 <= a)%Z) by lia.
    rewrite Zle_Qle, inject_Z_plus in L'. change (inject_Z 1) with 1 in L'.
    revert Na. qabs (inject_Z (round_half_even t) - t); qabs (inject_Z a - t); lra.
  - destruct (Z_lt_le_dec b (round_half_even t)) as [L|L]; [|exact L].
    assert (L' : (b + 1 <= round_half_even t)%Z) by lia.
    rewrite Zle_Qle, inject_Z_plus in L'. change (inject_Z 1) with 1 in L'.
    revert Nb. qabs (inject_Z (round_half_even t) - t); qabs (inject_Z b - t); lra.
Qed.

Lemma Qabs_pos_lt q : ~ q == 0 -> 0 < Qabs q.
Proof. intros N. qabs q; lra. Qed.

Lemma b64_exp_comp q q' : ~ q == 0 -> q == q' -> b64_exp q = b64_exp q'.
Proof.
  intros N E. unfold b64_exp. f_equal. f_equal.
  apply ilog2_comp; [apply Qabs_pos_lt; exact N | apply Qabs_wd; exact E].
Qed.

Lemma b64_round_nz q :
  ~ q == 0 ->
  b64_round q = inject_Z (round_half_even (q * 2 ^ (- b64_exp q))) * 2 ^ b64_exp q.
Proof.
  intros N. unfold b64_round. destruct (Qeq_bool q 0) eqn:E; [|reflexivity].
  apply Qeq_bool_iff in E. contradiction.
Qed.

Lemma b64_round_zero q : q == 0 -> b64_round q = 0.
Proof.
  intros E. unfold b64_round. destruct (Qeq_bool q 0) eqn:B; [reflexivity|].
  apply Qeq_bool_iff in E. congruence.
Qed.

Lemma b64_round_comp q q' : q == q' -> b64_round q = b64_round q'.
Proof.
  intros E. destruct (Qeq_dec q 0) as [Z|N].
  - rewrite (b64_round_zero q Z), (b64_round_zero q'); [reflexivity | rewrite <- E; exact Z].
  - assert (N' : ~ q' == 0) by (rewrite <- E; exact N).
    rewrite (b64_round_nz q N), (b64_round_nz q' N'), (b64_exp_comp q q' N E).
    f_equal. f_equal. apply round_half_even_comp. rewrite E. reflexivity.
Qed.

Lemma b64_round_opp q : b64_round (- q) == - b64_round q.
Proof.
  destruct (Qeq_dec q 0) as [Z|N].
  - rewrite (b64_round_zero q Z), (b64_round_zero (- q)); [reflexivity | rewrite Z; reflexivity].
  - assert (N' : ~ - q == 0) by (intros E; apply N; lra).
    rewrite (b64_round_nz q N), (b64_round_nz _ N').
    assert (Ee : b64_exp (- q) = b64_exp q).
    { unfold b64_exp. f_equal. f_equal. apply ilog2_comp; [apply Qabs_pos_lt; exact N'| apply Qabs_opp]. }
    rewrite Ee.
    assert (Er : round_half_even (- q * 2 ^ (- b64_exp q)) = (- round_half_even (q * 2 ^ (- b64_exp q)))%Z).
    { rewrite <- round_half_even_opp. apply round_half_even_comp. ring. }
    rewrite Er, inject_Z_opp. ring.
Qed.

(** Exactness on the grid of the argument's own binade. *)
Lemma b64_round_exact q M :
  q == inject_Z M * 2 ^ b64_exp q -> b64_round q == q.
Proof.
  intros E. destruct (Qeq_dec q 0) as [Z|N].
  - rewrite (b64_round_zero q Z). symmetry. exact Z.
  - rewrite (b64_round_nz q N).
    assert (Et : q * 2 ^ (- b64_exp q) == inject_Z M).
    { rewrite E at 1. rewrite <- Qmult_assoc, pow2_cancel. ring. }
    rewrite (round_half_even_comp _ _ Et), round_half_even_Z. symmetry. exact E.
Qed.

Lemma b64_round_grid_nearest q z :
  ~ q == 0 ->
  Qabs (b64_round q - q) <= Qabs (inject_Z z * 2 ^ b64_exp q - q).
Proof.
  intros N. rewrite (b64_round_nz q N).
  set (E := b64_exp q). set (t := q * 2 ^ (- E)).
  assert (Eq : q == t * 2 ^ E).
  { unfold t. rewrite <- Qmult_assoc, pow2_cancel'. ring. }
  assert (P := pow2_pos E).
  assert (E1 : inject_Z (round_half_even t) * 2 ^ E - q == (inject_Z (round_half_even t) - t) * 2 ^ E).
  { rewrite Eq at 1. ring. }
  assert (E2 : inject_Z z * 2 ^ E - q == (inject_Z z - t) * 2 ^ E).
  { rewrite Eq at 1. ring. }
  rewrite E1, E2, !Qabs_Qmult, (Qabs_pos (2 ^ E)) by lra.
  apply Qmult_le_compat_r; [apply round_half_even_nearest | lra].
Qed.

Lemma b64_repr_grid g : b64_repr g -> exists M, g == inject_Z M * 2 ^ b64_exp g.
Proof.
  intros H. destruct (Qeq_dec g 0) as [Z|N].
  - exists 0%Z. change (inject_Z 0) with 0. lra.
  - unfold b64_repr in H. rewrite (b64_round_nz g N) in H. eexists. symmetry. exact H.
Qed.

Lemma b64_exp_lower q : (-1074 <= b64_exp q)%Z.
Proof. unfold b64_exp. lia. Qed.

Lemma b64_exp_upper q : ~ q == 0 -> Qabs q < 2 ^ (b64_exp q + 53).
Proof.
  intros N. destruct (ilog2_spec _ (Qabs_pos_lt q N)) as [_ U].
  eapply Qlt_le_trans; [exact U|]. apply pow2_le. unfold b64_exp. lia.
Qed.

Lemma b64_exp_normal q : ~ q == 0 -> (-1074 < b64_exp q)%Z -> 2 ^ (b64_exp q + 52) <= Qabs q.
Proof.
  intros N H. destruct (ilog2_spec _ (Qabs_pos_lt q N)) as [L _].
  replace (b64_exp q + 52)%Z with (ilog2 (Qabs q)); [exact L|]. unfold b64_exp in *. lia.
Qed.

(** Round-to-nearest: no representable value is closer to [q] than
    [b64_round q]. *)
Lemma b64_round_nearest q g :
  b64_repr g -> Qabs (b64_round q - q) <= Qabs (g - q).
Proof.
  intros Hg. destruct (Qeq_dec q 0) as [Z|N].
  { rewrite (b64_round_zero q Z). rewrite Z. qabs (0 - 0); qabs (g - 0); lra. }
  destruct (Qeq_dec g 0) as [Zg|Ng].
  { assert (G := b64_round_grid_nearest q 0 N).
    assert (E : inject_Z 0 * 2 ^ b64_exp q - q == g - q) by (change (inject_Z 0) with 0; lra).
    rewrite E in G. exact G. }
  destruct (b64_repr_grid g Hg) as [M HM].
  destruct (Z_le_gt_dec (b64_exp q) (b64_exp g)) as [L|L].
  - assert (G := b64_round_grid_nearest q (M * 2 ^ (b64_exp g - b64_exp q)) N).
    assert (E : inject_Z (M * 2 ^ (b64_exp g - b64_exp q)) * 2 ^ b64_exp q == g).
    { rewrite inject_Z_mult, pow2_Z by lia. rewrite <- Qmult_assoc, <- pow2_add.
      replace (b64_exp g - b64_exp q + b64_exp q)%Z with (b64_exp g) by lia. symmetry. exact HM. }
    rewrite E in G. exact G.
  - assert (Ug := b64_exp_upper g Ng).
    assert (Lq : 2 ^ (b64_exp q + 52) <= Qabs q).
    { apply b64_exp_normal; [exact N|]. assert (B := b64_exp_lower g). lia. }
    assert (Le : 2 ^ (b64_exp g + 53) <= 2 ^ (b64_exp q + 52)) by (apply pow2_le; lia).
    assert (Ep : inject_Z (2 ^ 52) * 2 ^ b64_exp q == 2 ^ (b64_exp q + 52)).
    { rewrite pow2_Z by lia. rewrite <- pow2_add. replace (52 + b64_exp q)%Z with (b64_exp q + 52)%Z by lia. reflexivity. }
    assert (P := pow2_pos (b64_exp q + 52)).
    destruct (Qlt_le_dec q 0) as [Sq|Sq].
    + assert (G := b64_round_grid_nearest q (- 2 ^ 52) N).
      rewrite inject_Z_opp in G.
      assert (E : - inject_Z (2 ^ 52) * 2 ^ b64_exp q - q == - 2 ^ (b64_exp q + 52) - q).
      { rewrite <- Ep. ring. }
      rewrite E in G. eapply Qle_trans; [exact G|].
      rewrite (Qabs_neg q) in Lq by lra.
      revert Ug. qabs g; intros Ug; qabs (- 2 ^ (b64_exp q + 52) - q); qabs (g - q); lra.
    + assert (G := b64_round_grid_nearest q (2 ^ 52) N).
      assert (E : inject_Z (2 ^ 52) * 2 ^ b64_exp q - q == 2 ^ (b64_exp q + 52) - q).
      { rewrite <- Ep. ring. }
      rewrite E in G. eapply Qle_trans; [exact G|].
      rewrite (Qabs_pos q) in Lq by lra.
      revert Ug. qabs g; intros Ug; qabs (2 ^ (b64_exp q + 52) - q); qabs (g - q); lra.
Qed.

Lemma b64_repr_comp g g' : g == g' -> b64_repr g -> b64_repr g'.
Proof. unfold b64_repr. intros E H. rewrite <- (b64_round_comp g g' E), <- E. exact H. Qed.

Lemma b64_repr_opp g : b64_repr g -> b64_repr (- g).
Proof. unfold b64_repr. intros H. rewrite b64_round_opp, H. reflexivity. Qed.

Lemma b64_repr_0 : b64_repr 0.
Proof. reflexivity. Qed.

Lemma b64_exp_pos q : 0 < q -> b64_exp q = Z.max (ilog2 q - 52) (-1074).
Proof.
  intros H. unfold b64_exp. f_equal. f_equal.
  apply ilog2_comp; [qabs q; lra | apply Qabs_pos; lra].
Qed.

(** A positive value on the grid of its own binade is representable. *)
Lemma b64_repr_intro g M E :
  0 < g -> g == inject_Z M * 2 ^ E -> (-1074 <= E)%Z ->
  g < 2 ^ (E + 53) -> (E = (-1074)%Z \/ 2 ^ (E + 52) <= g) -> b64_repr g.
Proof.
  intros Hg HM HE Hu Hl.
  assert (Ee : b64_exp g = E).
  { rewrite (b64_exp_pos g Hg). assert (U := ilog2_le g _ Hg Hu).
    destruct Hl as [->|Hl]; [lia|]. assert (L := ilog2_ge g _ Hl). lia. }
  apply (b64_round_exact g M). rewrite Ee. exact HM.
Qed.

Lemma b64_round_idem_pos q : 0 < q -> b64_repr (b64_round q).
Proof.
  intros Hq. assert (N : ~ q == 0) by (intros E0; lra). rewrite (b64_round_nz q N).
  set (E := b64_exp q). set (t := q * 2 ^ (- E)).
  assert (PE := pow2_pos E). assert (PnE := pow2_pos (- E)).
  assert (Aq : Qabs q == q) by (apply Qabs_pos; lra).
  assert (U := b64_exp_upper q N). fold E in U. rewrite Aq in U.
  assert (LE := b64_exp_lower q). fold E in LE.
  assert (Et : t * 2 ^ E == q) by (unfold t; rewrite <- Qmult_assoc, pow2_cancel'; ring).
  assert (T0 : 0 < t) by (unfold t; apply Qmult_lt_0_compat; assumption).
  assert (E53 : 2 ^ (E + 53) == 2 ^ 53 * 2 ^ E) by (rewrite pow2_add; ring).
  assert (E52 : 2 ^ (E + 52) == 2 ^ 52 * 2 ^ E) by (rewrite pow2_add; ring).
  assert (T53 : t < 2 ^ 53).
  { apply (Qmult_lt_r _ _ (2 ^ E) PE). rewrite Et, <- E53. exact U. }
  assert (B : (0 <= round_half_even t <= 2 ^ 53)%Z).
  { apply round_half_even_between; [change (inject_Z 0) with 0; lra|]. rewrite pow2_Z by lia. lra. }
  set (M := round_half_even t) in *.
  destruct (Z.eq_dec M 0%Z) as [M0|M0].
  { rewrite M0. apply (b64_repr_comp 0); [change (inject_Z 0) with 0; ring | exact b64_repr_0]. }
  assert (Mpos : 0 < inject_Z M) by (rewrite <- (Zlt_Qlt 0); lia).
  destruct (Z.eq_dec M (2 ^ 53)%Z) as [M53|M53].
  - rewrite M53. apply (b64_repr_intro _ (2 ^ 52) (E + 1)).
    + apply Qmult_lt_0_compat; [reflexivity | exact PE].
    + rewrite pow2_succ. rewrite !pow2_Z by lia. change (2 ^ 53) with (2 * 2 ^ 52). ring.
    + lia.
    + rewrite pow2_Z by lia. rewrite <- pow2_add. apply pow2_lt. lia.
    + right. rewrite pow2_Z by lia. rewrite <- pow2_add. apply pow2_le. lia.
  - apply (b64_repr_intro _ M E).
    + apply Qmult_lt_0_compat; assumption.
    + reflexivity.
    + exact LE.
    + rewrite E53. apply Qmult_lt_r; [exact PE|]. rewrite <- pow2_Z by lia.
      rewrite <- Zlt_Qlt. lia.
    + destruct (Z.eq_dec E (-1074)%Z) as [Es|Es]; [left; exact Es | right].
      assert (Lq := b64_exp_normal q N). fold E in Lq. rewrite Aq in Lq.
      assert (L2 : 2 ^ (E + 52) <= q) by (apply Lq; lia).
      assert (T52 : 2 ^ 52 <= t).
      { apply (Qmult_le_r _ _ (2 ^ E) PE). rewrite Et, <- E52. exact L2. }
      assert (B2 : (2 ^ 52 <= round_half_even t <= 2 ^ 53)%Z).
      { apply round_half_even_between; rewrite pow2_Z by lia; lra. }
      fold M in B2. rewrite E52. apply Qmult_le_r; [exact PE|].
      rewrite <- pow2_Z by lia. rewrite <- Zle_Qle. lia.
Qed.

(** Rounding is idempotent: its results are representable. *)
Lemma b64_round_idem q : b64_repr (b64_round q).
Proof.
  destruct (Qlt_le_dec 0 q) as [P|NP]; [apply b64_round_idem_pos; exact P|].
  destruct (Qeq_dec q 0) as [Z|N].
  - rewrite (b64_round_zero q Z). exact b64_repr_0.
  - assert (P : 0 < - q) by lra.
    apply (b64_repr_comp (- b64_round (- q))).
    + rewrite b64_round_opp. ring.
    + apply b64_repr_opp, b64_round_idem_pos, P.
Qed.

(** Rounding is monotone. *)
Lemma b64_round_mono q1 q2 : q1 <= q2 -> b64_round q1 <= b64_round q2.
Proof.
  intros H. apply Qnot_lt_le. intros C.
  assert (N1 := b64_round_nearest q1 _ (b64_round_idem q2)).
  assert (N2 := b64_round_nearest q2 _ (b64_round_idem q1)).
  destruct (Qlt_le_dec q1 q2) as [L|L].
  - revert N1 N2.
    qabs (b64_round q1 - q1); qabs (b64_round q2 - q1);
    qabs (b64_round q2 - q2); qabs (b64_round q1 - q2); intros; lra.
  - assert (E : q1 == q2) by lra. rewrite (b64_round_comp _ _ E) in C. lra.
Qed.

Lemma b64_round_nonneg q : 0 <= q -> 0 <= b64_round q.
Proof. intros H. change 0 with (b64_round 0) at 1. apply b64_round_mono. exact H. Qed.

Lemma b64_round_fix g : b64_repr g -> b64_round g == g.
Proof. exact (fun H => H). Qed.

(** Integers up to 2^53 in absolute value are representable. *)
Lemma b64_repr_Z_pos z : (0 < z <= 2 ^ 53)%Z -> b64_repr (inject_Z z).
Proof.
  intros [Hz Hb]. assert (Qz : 0 < inject_Z z) by (rewrite <- (Zlt_Qlt 0); exact Hz).
  destruct (Z.eq_dec z (2 ^ 53)%Z) as [->|Nz].
  - apply (b64_repr_intro _ (2 ^ 52) 1); [exact Qz | reflexivity | lia | reflexivity | right; discriminate].
  - destruct (Z.log2_spec z Hz) as [L1 L2]. assert (L0 := Z.log2_nonneg z).
    set (e := Z.log2 z) in *.
    assert (He : (e <= 52)%Z).
    { assert (2 ^ e < 2 ^ 53)%Z by lia. apply Z.pow_lt_mono_r_iff in H; lia. }
    apply (b64_repr_intro _ (z * 2 ^ (52 - e)) (e - 52)).
    + exact Qz.
    + rewrite inject_Z_mult, pow2_Z by lia. rewrite <- Qmult_assoc, <- pow2_add.
      replace (52 - e + (e - 52))%Z with 0%Z by lia. change (2 ^ 0) with 1. ring.
    + lia.
    + replace (e - 52 + 53)%Z with (Z.succ e) by lia. rewrite <- pow2_Z by lia.
      rewrite <- Zlt_Qlt. exact L2.
    + right. replace (e - 52 + 52)%Z with e by lia. rewrite <- pow2_Z by lia.
      rewrite <- Zle_Qle. exact L1.
Qed.

Lemma b64_repr_Z z : (Z.abs z <= 2 ^ 53)%Z -> b64_repr (inject_Z z).
Proof.
  intros H. destruct (Z.lt_trichotomy z 0%Z) as [L|[->|G]].
  - apply (b64_repr_comp (- inject_Z (- z))).
    + rewrite inject_Z_opp. ring.
    + apply b64_repr_opp, b64_repr_Z_pos. lia.
  - exact b64_repr_0.
  - apply b64_repr_Z_pos. lia.
Qed.

Lemma b64_round_Z z : (Z.abs z <= 2 ^ 53)%Z -> b64_round (inject_Z z) == inject_Z z.
Proof. exact (b64_repr_Z z). Qed.

Lemma Zlt_succ_Q a q : q < inject_Z a -> inject_Z (Qfloor q + 1) <= inject_Z a.
Proof.
  intros H. rewrite <- Zle_Qle. assert (F := Qfloor_le q).
  assert (Qfloor q < a)%Z by (rewrite Zlt_Qlt; lra). lia.
Qed.

(** Dividing a representable value below 2^53 by a positive integer and
    rounding the quotient does not cross an integer: the rounded and the
    exact quotient have the same floor. *)
Lemma b64_div_floor x y :
  b64_repr x -> 0 <= x -> x < 2 ^ 53 -> (1 <= y)%Z ->
  Qfloor (b64_round (x / inject_Z y)) = Qfloor (x / inject_Z y).
Proof.
  intros Hx X0 X53 Hy.
  assert (Y1 : 1 <= inject_Z y) by (rewrite <- (Zle_Qle 1); exact Hy).
  set (Y := inject_Z y) in *. set (q := x / Y).
  assert (Eq : q * Y == x) by (unfold q; field; intros E; lra).
  assert (Q0 : 0 <= q).
  { apply (Qmult_le_r _ _ Y); [lra|]. rewrite Eq. lra. }
  assert (Qx : q <= x).
  { assert (0 <= q * (Y - 1)) by (apply Qmult_le_0_compat; lra). lra. }
  assert (F1 := Qfloor_le q). assert (F2 := Qlt_floor q).
  set (k := Qfloor q) in *.
  assert (K0 : (0 <= k)%Z) by (unfold k; change 0%Z with (Qfloor 0); apply Qfloor_resp_le; exact Q0).
  assert (K53 : (k < 2 ^ 53)%Z).
  { rewrite Zlt_Qlt. rewrite pow2_Z by lia. lra. }
  assert (Rk : b64_repr (inject_Z k)) by (apply b64_repr_Z; lia).
  assert (Rm : b64_repr (inject_Z (k + 1))) by (apply b64_repr_Z; lia).
  assert (Nk := b64_round_nearest q _ Rk).
  set (r := b64_round q) in *.
  rewrite inject_Z_plus in F2. change (inject_Z 1) with 1 in F2.
  apply Qfloor_unique.
  { apply Qnot_lt_le. intros C. revert Nk.
    qabs (r - q); qabs (inject_Z k - q); intros; lra. }
  rewrite inject_Z_plus. change (inject_Z 1) with 1.
  apply Qnot_le_lt. intros C.
  destruct (Qlt_le_dec q (1 # 2)) as [Small|Big].
  { assert (Rh : b64_repr (1 # 2)) by (vm_compute; reflexivity).
    assert (Nh := b64_round_nearest q _ Rh). fold r in Nh. revert Nh.
    assert (0 <= inject_Z k) by (rewrite <- (Zle_Qle 0); exact K0).
    qabs (r - q); qabs ((1 # 2) - q); intros; lra. }
  assert (Qpos : 0 < q) by lra.
  destruct (ilog2_spec q Qpos) as [J1 J2].
  set (j := ilog2 q) in *.
  assert (Jlo : (-1 <= j)%Z) by (apply ilog2_ge; exact Big).
  assert (Jhi : (j <= 52)%Z).
  { assert (j < 53)%Z; [|lia]. apply ilog2_le; [exact Qpos | lra]. }
  assert (Mle : inject_Z k + 1 <= 2 ^ (j + 1)).
  { rewrite <- pow2_Z by lia. change 1 with (inject_Z 1) at 1. rewrite <- inject_Z_plus.
    apply Zlt_succ_Q. rewrite pow2_Z by lia. exact J2. }
  assert (D52 : 2 ^ (j - 52) == 2 * 2 ^ (j - 53)).
  { rewrite (pow2_pred (j - 52)). replace (j - 52 - 1)%Z with (j - 53)%Z by lia. reflexivity. }
  assert (PD := pow2_pos (j - 53)).
  assert (D1 : 2 ^ (j - 52) <= 1).
  { change 1 with (2 ^ 0). apply pow2_le. lia. }
  assert (P2j : 2 ^ (j + 1) == 2 * 2 ^ j) by apply pow2_succ.
  (* the largest representable value below k + 1 *)
  set (p := inject_Z k + 1 - 2 ^ (j - 52)).
  assert (Plow : 2 ^ j <= p).
  { destruct (Z.eq_dec j (-1)%Z) as [Jn|Jn].
    - assert (Ek : k = 0%Z).
      { assert (q < 1) by (rewrite Jn in J2; exact J2).
        assert (k < 1)%Z by (rewrite Zlt_Qlt; change (inject_Z 1) with 1; lra). lia. }
      unfold p. rewrite Ek, Jn. vm_compute. discriminate.
    - assert (J : 2 ^ j <= inject_Z k).
      { rewrite <- pow2_Z by lia. rewrite <- Zle_Qle. unfold k.
        rewrite <- (Qfloor_Z (2 ^ j)). apply Qfloor_resp_le. rewrite pow2_Z by lia. exact J1. }
      unfold p. lra. }
  assert (Rp : b64_repr p).
  { apply (b64_repr_intro p ((k + 1) * 2 ^ (52 - j) - 1) (j - 52)).
    - assert (Pj := pow2_pos j). lra.
    - unfold Zminus at 1. rewrite inject_Z_plus, inject_Z_mult, inject_Z_plus, inject_Z_opp, pow2_Z by lia.
      change (inject_Z 1) with 1. unfold p.
      assert (Ec : 2 ^ (52 - j) * 2 ^ (j - 52) == 1).
      { rewrite <- pow2_add. replace (52 - j + (j - 52))%Z with 0%Z by lia. reflexivity. }
      transitivity ((inject_Z k + 1) * (2 ^ (52 - j) * 2 ^ (j - 52)) - 2 ^ (j - 52)); [rewrite Ec; ring | ring].
    - lia.
    - replace (j - 52 + 53)%Z with (j + 1)%Z by lia. unfold p. assert (Pp := pow2_pos (j - 52)). lra.
    - right. replace (j - 52 + 52)%Z with j by lia. exact Plow. }
  assert (Np := b64_round_nearest q _ Rp). fold r in Np.
  (* the quotient stays more than half a step below k + 1 *)
  assert (Core : 2 ^ (j - 53) < inject_Z k + 1 - q).
  { destruct (b64_repr_grid x Hx) as [Mx HMx].
    assert (Xpos : 0 < x) by (rewrite <- Eq; apply Qmult_lt_0_compat; lra).
    assert (Nx : ~ x == 0) by (intros E0; lra).
    assert (Ux := b64_exp_upper x Nx). rewrite (Qabs_pos x) in Ux by lra.
    set (Ex := b64_exp x) in *.
    assert (Ex0 : (Ex <= 0)%Z).
    { unfold Ex. rewrite (b64_exp_pos x Xpos).
      assert (ilog2 x < 53)%Z by (apply ilog2_le; assumption). lia. }
    assert (Pu := pow2_pos Ex).
    assert (Eu : 2 ^ (Ex + 53) == 2 ^ Ex * 2 ^ 53) by apply pow2_add.
    set (T := ((k + 1) * y * 2 ^ (- Ex) - Mx)%Z).
    assert (ET : (inject_Z k + 1) * Y - x == inject_Z T * 2 ^ Ex).
    { unfold T. unfold Zminus. rewrite inject_Z_plus, !inject_Z_mult, inject_Z_plus, inject_Z_opp, pow2_Z by lia.
      change (inject_Z 1) with 1. fold Y. rewrite HMx at 1.
      transitivity ((inject_Z k + 1) * Y * (2 ^ (- Ex) * 2 ^ Ex) - inject_Z Mx * 2 ^ Ex); [rewrite pow2_cancel'; ring | ring]. }
    assert (Tpos : 0 < (inject_Z k + 1) * Y - x).
    { assert (0 < (inject_Z k + 1 - q) * Y) by (apply Qmult_lt_0_compat; lra). lra. }
    assert (T1 : (1 <= T)%Z).
    { assert (0 < T)%Z; [|lia]. rewrite Zlt_Qlt. apply (Qmult_lt_r _ _ (2 ^ Ex) Pu).
      rewrite <- ET. change (inject_Z 0) with 0. lra. }
    assert (Tu : 2 ^ Ex <= (inject_Z k + 1) * Y - x).
    { rewrite ET. rewrite <- (Qmult_1_l (2 ^ Ex)) at 1. apply Qmult_le_compat_r; [|lra].
      rewrite <- (Zle_Qle 1). exact T1. }
    assert (YP : Y * 2 ^ j <= x).
    { rewrite <- Eq, (Qmult_comm q Y). apply Qmult_le_l; [lra | exact J1]. }
    assert (EP : 2 ^ j == 2 ^ (j - 53) * 2 ^ 53).
    { rewrite <- pow2_add. replace (j - 53 + 53)%Z with j by lia. reflexivity. }
    assert (YD : Y * 2 ^ (j - 53) < 2 ^ Ex).
    { apply (Qmult_lt_r _ _ (2 ^ 53)); [reflexivity|].
      rewrite <- Qmult_assoc, <- EP, <- Eu. lra. }
    apply (Qmult_lt_r _ _ Y); [lra|]. lra. }
  revert Np. unfold p.
  qabs (r - q); qabs (inject_Z k + 1 - 2 ^ (j - 52) - q); intros; lra.
Qed.

(** The representable values are the integer multiples [m * 2^e] of a power
    of two with [|m| < 2^53] and [e >= -1074]: the binary64 values, those
    beyond the largest finite one included. *)
Lemma b64_repr_iff g :
  b64_repr g
  <-> exists m e, (Z.abs m < 2 ^ 53)%Z /\ (-1074 <= e)%Z /\ g == inject_Z m * 2 ^ e.
Proof.
  split.
  - intros H. destruct (Qeq_dec g 0) as [Z|N].
    { exists 0%Z, 0%Z. split; [reflexivity|]. split; [lia|].
      change (inject_Z 0) with 0. lra. }
    destruct (b64_repr_grid g H) as [M HM]. exists M, (b64_exp g).
    split; [|split; [apply b64_exp_lower|exact HM]].
    assert (U := b64_exp_upper g N). assert (P := pow2_pos (b64_exp g)).
    assert (E53 : 2 ^ (b64_exp g + 53) == 2 ^ 53 * 2 ^ b64_exp g) by (rewrite pow2_add; ring).
    assert (A : Qabs g == inject_Z (Z.abs M) * 2 ^ b64_exp g).
    { rewrite HM at 1. rewrite Qabs_Qmult, (Qabs_pos (2 ^ b64_exp g)) by lra.
      apply Qmult_comp; [|reflexivity]. unfold Qabs, inject_Z. reflexivity. }
    rewrite A, E53 in U. apply Qmult_lt_r in U; [|exact P].
    rewrite Zlt_Qlt, pow2_Z by lia. exact U.
  - intros (m & e & Hm & He & Hg).
    destruct (Z.eq_dec m 0%Z) as [->|Nm].
    { apply (b64_repr_comp 0); [|exact b64_repr_0].
      rewrite Hg. change (inject_Z 0) with 0. ring. }
    assert (P := pow2_pos e).
    assert (A : Qabs g == inject_Z (Z.abs m) * 2 ^ e).
    { rewrite Hg at 1. rewrite Qabs_Qmult, (Qabs_pos (2 ^ e)) by lra.
      apply Qmult_comp; [|reflexivity]. unfold Qabs, inject_Z. reflexivity. }
    assert (M1 : 1 <= inject_Z (Z.abs m)).
    { change 1 with (inject_Z 1). rewrite <- Zle_Qle. lia. }
    assert (M53 : inject_Z (Z.abs m) < 2 ^ 53).
    { rewrite <- pow2_Z by lia. rewrite <- Zlt_Qlt. exact Hm. }
    assert (Apos : 0 < Qabs g).
    { rewrite A. apply Qmult_lt_0_compat; lra. }
    assert (U : Qabs g < 2 ^ (e + 53)).
    { rewrite A, pow2_add, (Qmult_comm (2 ^ e)). apply Qmult_lt_r; [exact P|exact M53]. }
    assert (L := ilog2_le _ _ Apos U).
    assert (Ele : (b64_exp g <= e)%Z) by (unfold b64_exp; lia).
    apply (b64_round_exact g (m * 2 ^ (e - b64_exp g))).
    rewrite inject_Z_mult, pow2_Z by lia. rewrite <- Qmult_assoc, <- pow2_add.
    replace (e - b64_exp g + b64_exp g)%Z with e by lia. exact Hg.
Qed.

End Binary64Facts.

(** ** Facts about [py_sorted_reverse] *)

Lemma filter_perm {A : Type} (p : A -> bool) (l l' : list A) :
  Permutation l l' -> Permutation (List.filter p l) (List.filter p l').
Proof.
  induction 1 as [|x l l' _ IH|x y l|l l' l'' _ IH1 _ IH2]; cbn [List.filter].
  - reflexivity.
  - destruct (p x); [now apply perm_skip|assumption].
  - destruct (p x), (p y); try reflexivity. apply perm_swap.
  - now transitivity (List.filter p l').
Qed.

Lemma StronglySorted_weaken {A : Type} (R R' : A -> A -> Prop) (l : list A) :
  (forall a b, R a b -> R' a b) -> StronglySorted R l -> StronglySorted R' l.
Proof.
  intros HR. induction 1 as [|x l _ IH Hx]; constructor; [exact IH|].
  eapply List.Forall_impl; [|exact Hx]. intros y. apply HR.
Qed.

Section SortFacts.
Context {A K : Type}.
Variable lt : K -> K -> bool.

Lemma insert_desc_perm (x : K * A) (l : list (K * A)) :
  Permutation (insert_desc lt x l) (x :: l).
Proof.
  induction l as [|y l IH]; simpl; [reflexivity|].
  destruct (lt (fst x) (fst y)); [|reflexivity].
  rewrite IH. apply perm_swap.
Qed.

Lemma sort_desc_perm (l : list (K * A)) : Permutation (sort_desc lt l) l.
Proof.
  induction l as [|x l IH]; simpl; [reflexivity|].
  rewrite insert_desc_perm. now apply perm_skip.
Qed.

(** Stability: the items whose key satisfies [P] keep their order, when no
    two keys satisfying [P] are strictly ordered. *)
Lemma insert_desc_filter (P : K -> bool) (x : K * A) (l : list (K * A)) :
  (forall a b, P a = true -> P b = true -> lt a b = false) ->
  List.filter (fun p => P (fst p)) (insert_desc lt x l)
  = List.filter (fun p => P (fst p)) (x :: l).
Proof.
  intros HP. induction l as [|y l IH]; [reflexivity|].
  cbn [insert_desc]. destruct (lt (fst x) (fst y)) eqn:Hxy; [|reflexivity].
  cbn [List.filter] in *. rewrite IH.
  destruct (P (fst x)) eqn:Px, (P (fst y)) eqn:Py; try reflexivity.
  rewrite (HP _ _ Px Py) in Hxy. discriminate.
Qed.

Lemma sort_desc_filter (P : K -> bool) (l : list (K * A)) :
  (forall a b, P a = true -> P b = true -> lt a b = false) ->
  List.filter (fun p => P (fst p)) (sort_desc lt l)
  = List.filter (fun p => P (fst p)) l.
Proof.
  intros HP. induction l as [|x l IH]; [reflexivity|].
  cbn [sort_desc foldr]. fold (sort_desc lt l).
  rewrite insert_desc_filter by assumption.
  cbn [List.filter]. now rewrite IH.
Qed.

Hypothesis lt_asym : forall a b, lt a b = true -> lt b a = false.
Hypothesis ge_trans : forall a b c, lt a b = false -> lt b c = false -> lt a c = false.

Lemma insert_desc_sorted (x : K * A) (l : list (K * A)) :
  StronglySorted (desc lt) l -> StronglySorted (desc lt) (insert_desc lt x l).
Proof using lt_asym ge_trans.
  induction 1 as [|y l Hs IH Hy]; simpl.
  - constructor; constructor.
  - destruct (lt (fst x) (fst y)) eqn:Hxy.
    + constructor; [assumption|].
      eapply Permutation_Forall; [symmetry; apply insert_desc_perm|].
      constructor; [|assumption]. now apply lt_asym.
    + constructor; [now constructor|].
      constructor; [assumption|].
      eapply List.Forall_impl; [|exact Hy]. intros z Hz. unfold desc in *.
      now apply ge_trans with (fst y).
Qed.

Lemma sort_desc_sorted (l : list (K * A)) : StronglySorted (desc lt) (sort_desc lt l).
Proof using lt_asym ge_trans.
  induction l as [|x l IH]; simpl; [constructor|].
  now apply insert_desc_sorted.
Qed.

End SortFacts.

(** *** Keys that never raise *)

Section SortTotalKey.
Context {A K : Type}.
Variable lt : K -> K -> bool.
Variable f : A -> K.

Lemma decorate_total (xs : list A) :
  decorate (fun x => ret (f x)) xs = inr (map (deco f) xs).
Proof.
  induction xs as [|x xs IH]; [reflexivity|].
  cbn [decorate bind ret]. now rewrite IH.
Qed.

Lemma py_sorted_reverse_total (xs : list A) :
  py_sorted_reverse lt (fun x => ret (f x)) xs = inr (sort_by lt f xs).
Proof. unfold py_sorted_reverse. now rewrite decorate_total. Qed.

Lemma sort_by_decorated (xs : list A) :
  map (deco f) (sort_by lt f xs) = sort_desc lt (map (deco f) xs).
Proof.
  unfold sort_by.
  assert (H : Forall (fun p => p = deco f (snd p)) (sort_desc lt (map (deco f) xs))).
  { eapply Permutation_Forall; [symmetry; apply sort_desc_perm|].
    apply List.Forall_forall. intros p Hp. apply in_map_iff in Hp.
    destruct Hp as [x [<- _]]. reflexivity. }
  induction H as [|p l Hp _ IH]; [reflexivity|].
  cbn [map]. now rewrite <- Hp, IH.
Qed.

Lemma sort_by_perm (xs : list A) : Permutation (sort_by lt f xs) xs.
Proof.
  unfold sort_by. rewrite sort_desc_perm, map_map. cbn [deco snd].
  now rewrite map_id.
Qed.

Lemma sort_by_length (xs : list A) : length (sort_by lt f xs) = length xs.
Proof. apply Permutation_length, sort_by_perm. Qed.

Lemma sort_by_stable (P : K -> bool) (xs : list A) :
  (forall a b, P a = true -> P b = true -> lt a b = false) ->
  List.filter (fun x => P (f x)) (sort_by lt f xs) = List.filter (fun x => P (f x)) xs.
Proof.
  intros HP.
  assert (Hf : forall l, map (deco f) (List.filter (fun x => P (f x)) l)
                         = List.filter (fun p => P (fst p)) (map (deco f) l)).
  { induction l as [|x l IH]; [reflexivity|].
    cbn [map List.filter deco fst]. destruct (P (f x)); cbn [map]; now rewrite IH. }
  assert (Hinj : forall l l' : list A, map (deco f) l = map (deco f) l' -> l = l').
  { intros l l' H. apply (f_equal (map snd)) in H.
    rewrite !map_map in H. cbn [deco snd] in H. now rewrite !map_id in H. }
  apply Hinj. rewrite !Hf, sort_by_decorated. now apply sort_desc_filter.
Qed.

Hypothesis lt_asym : forall a b, lt a b = true -> lt b a = false.
Hypothesis ge_trans : forall a b c, lt a b = false -> lt b c = false -> lt a c = false.

Lemma sort_by_sorted (xs : list A) :
  StronglySorted (fun a b => lt (f a) (f b) = false) (sort_by lt f xs).
Proof using lt_asym ge_trans.
  pose proof (sort_desc_sorted lt lt_asym ge_trans (map (deco f) xs)) as H.
  rewrite <- sort_by_decorated in H.
  induction (sort_by lt f xs) as [|x l IH]; [constructor|].
  cbn [map] in H. apply StronglySorted_inv in H. destruct H as [Hs Hx].
  constructor; [now apply IH|].
  apply List.Forall_forall. intros y Hy.
  rewrite List.Forall_forall in Hx. apply (Hx (deco f y)). now apply in_map.
Qed.

(** An item is among the first [n] of the ranking when at most [n] items
    have a key that is not smaller than its own. *)
Hypothesis lt_irrefl : forall a, lt a a = false.

Lemma sort_by_top (n : nat) (x : A) (xs : list A) :
  In x xs ->
  (length (List.filter (not_below lt f x) xs) <= n)%nat ->
  In x (firstn n (sort_by lt f xs)).
Proof using lt_asym ge_trans lt_irrefl.
  intros Hin Hcount.
  assert (Hin' : In x (sort_by lt f xs)).
  { eapply Permutation_in; [symmetry; apply sort_by_perm|assumption]. }
  assert (Hc : (length (List.filter (not_below lt f x) (sort_by lt f xs)) <= n)%nat).
  { erewrite Permutation_length; [exact Hcount|].
    apply filter_perm, sort_by_perm. }
  pose proof (sort_by_sorted xs) as Hs.
  clear Hin Hcount. revert n Hc.
  induction Hs as [|y l Hs IH Hy]; intros n Hc; [contradiction|].
  destruct Hin' as [->|Hin'].
  - cbn [List.filter] in Hc. unfold not_below at 1 in Hc. rewrite lt_irrefl in Hc.
    cbn in Hc. destruct n; [lia|]. now left.
  - cbn [List.filter] in Hc.
    assert (Hyx : not_below lt f x y = true).
    { unfold not_below. rewrite List.Forall_forall in Hy. now rewrite (Hy x Hin'). }
    rewrite Hyx in Hc. cbn [length] in Hc.
    destruct n; [lia|]. cbn [firstn]. right. apply IH; [assumption|lia].
Qed.

End SortTotalKey.

(** ** Order facts on the keys *)

Lemma Qlt_bool_iff (a b : Q) : Qlt_bool a b = true <-> (a < b)%Q.
Proof.
  unfold Qlt_bool. rewrite negb_true_iff. split.
  - intros H. apply Qnot_le_lt. intros Hle.
    apply Qle_bool_iff in Hle. congruence.
  - intros H. destruct (Qle_bool b a) eqn:E; [|reflexivity].
    apply Qle_bool_iff in E. exfalso. now apply (Qlt_not_le a b).
Qed.

Lemma Qlt_bool_false_iff (a b : Q) : Qlt_bool a b = false <-> (b <= a)%Q.
Proof.
  unfold Qlt_bool. rewrite negb_false_iff. apply Qle_bool_iff.
Qed.

Lemma Qlt_bool_asym (a b : Q) : Qlt_bool a b = true -> Qlt_bool b a = false.
Proof.
  rewrite Qlt_bool_iff, Qlt_bool_false_iff. apply Qlt_le_weak.
Qed.

Lemma Qlt_bool_ge_trans (a b c : Q) :
  Qlt_bool a b = false -> Qlt_bool b c = false -> Qlt_bool a c = false.
Proof.
  rewrite !Qlt_bool_false_iff. intros H1 H2. now apply Qle_trans with b.
Qed.

Lemma Qlt_bool_irrefl (a : Q) : Qlt_bool a a = false.
Proof. apply Qlt_bool_false_iff, Qle_refl. Qed.

Lemma Qlt_bool_eq_class (q a b : Q) :
  Qeq_bool a q = true -> Qeq_bool b q = true -> Qlt_bool a b = false.
Proof.
  intros Ha Hb. apply Qeq_bool_iff in Ha, Hb. apply Qlt_bool_false_iff.
  rewrite Ha, Hb. apply Qle_refl.
Qed.

Lemma Zltb_asym (a b : Z) : (a <? b) = true -> (b <? a) = false.
Proof. lia. Qed.

Lemma Zltb_ge_trans (a b c : Z) :
  (a <? b) = false -> (b <? c) = false -> (a <? c) = false.
Proof. lia. Qed.

Lemma Zltb_eq_class (k a b : Z) :
  (a =? k) = true -> (b =? k) = true -> (a <? b) = false.
Proof. lia. Qed.

(** ** Facts about the printing loops *)

Lemma print_each_total (g : Idx.t -> list Line) (l : list Idx.t) (out : list Line) :
  AnalyzeData.print_each (fun index => ret (g index)) l out
  = (out ++ flat_map g l, None).
Proof.
  revert out. induction l as [|x l IH]; intros out; cbn [AnalyzeData.print_each flat_map].
  - now rewrite app_nil_r.
  - unfold ret at 1. rewrite IH. now rewrite <- app_assoc.
Qed.

Lemma print_largest_indexes_eq (self_data : list Idx.t) :
  AnalyzeData.print_largest_indexes self_data
  = AnalyzeData.mkRun self_data
      (Text "Printing largest indexes by storage size"
         :: flat_map size_lines (top_by_size self_data))
      None.
Proof.
  unfold AnalyzeData.print_largest_indexes, AnalyzeData.sorted_largest_index.
  rewrite py_sorted_reverse_total.
  change (fun index : Idx.t => ret [LIndex (Idx.index index); LSize (Idx.size index)])
    with (fun index : Idx.t => @ret (list Line) (size_lines index)).
  now rewrite print_each_total.
Qed.

Lemma print_most_shards_eq (self_data : list Idx.t) :
  AnalyzeData.print_most_shards self_data
  = AnalyzeData.mkRun self_data
      (Text "Printing largest indexes by shard count"
         :: flat_map shards_lines (top_by_shards self_data))
      None.
Proof.
  unfold AnalyzeData.print_most_shards, AnalyzeData.sorted_largest_shard_count.
  rewrite py_sorted_reverse_total.
  change (fun index : Idx.t => ret [LIndex (Idx.index index); LShards (Idx.shards index)])
    with (fun index : Idx.t => @ret (list Line) (shards_lines index)).
  now rewrite print_each_total.
Qed.

(** ** Facts about the numeric conversions *)

Section ConversionFacts.
#[local] Open Scope Q_scope.

Lemma py_int_of_float_floor (q : Q) : 0 <= q -> py_int_of_float q = Qfloor q.
Proof.
  destruct q as [n d]. unfold Qle, py_int_of_float, Qfloor. cbn [Qnum Qden].
  intros H. apply Z.quot_div_nonneg; lia.
Qed.

Lemma py_int_of_float_ceiling (q : Q) : q <= 0 -> py_int_of_float q = Qceiling q.
Proof.
  destruct q as [n d]. unfold Qle, py_int_of_float, Qceiling, Qfloor, Qopp.
  cbn [Qnum Qden]. intros H.
  rewrite <- (Z.opp_involutive n) at 1. rewrite Z.quot_opp_l by lia.
  f_equal. apply Z.quot_div_nonneg; lia.
Qed.

Lemma py_int_of_float_comp (q q' : Q) : q == q' -> py_int_of_float q = py_int_of_float q'.
Proof.
  intros E. destruct (Qlt_le_dec q 0) as [L|L].
  - rewrite !py_int_of_float_ceiling by lra. unfold Qceiling. f_equal.
    apply Qfloor_comp. rewrite E. reflexivity.
  - rewrite !py_int_of_float_floor by lra. apply Qfloor_comp. exact E.
Qed.

Lemma py_int_of_float_opp (q : Q) : py_int_of_float (- q) = (- py_int_of_float q)%Z.
Proof.
  destruct q as [n d]. unfold py_int_of_float, Qopp. cbn [Qnum Qden].
  apply Z.quot_opp_l. lia.
Qed.

(** *** The float range *)

Lemma float_limit_rounds_up : b64_round (inject_Z FLOAT_LIMIT) == 2 ^ 1024.
Proof. vm_compute. reflexivity. Qed.

Lemma float_max_repr : b64_repr (2 ^ 1024 - 2 ^ 971).
Proof. vm_compute. reflexivity. Qed.

Lemma float_limit_value : inject_Z FLOAT_LIMIT == 2 ^ 1024 - 2 ^ 970.
Proof. vm_compute. reflexivity. Qed.

(** Rounding overflows exactly from [FLOAT_LIMIT] on, the midpoint between
    the largest finite float and [2^1024]. *)
Lemma b64_overflow_iff (q : Q) :
  b64_overflow q = true <-> inject_Z FLOAT_LIMIT <= Qabs q.
Proof.
  unfold b64_overflow. rewrite Qle_bool_iff.
  assert (Ru := float_limit_rounds_up). assert (Rm := float_max_repr).
  assert (Tv := float_limit_value).
  assert (E971 : 2 ^ 971 == 2 * 2 ^ 970) by reflexivity.
  assert (P970 : 0 < 2 ^ 970) by reflexivity.
  assert (Rn : b64_round (- inject_Z FLOAT_LIMIT) == - 2 ^ 1024).
  { rewrite b64_round_opp, Ru. reflexivity. }
  assert (Rm' : b64_repr (- (2 ^ 1024 - 2 ^ 971))) by (apply b64_repr_opp; exact Rm).
  set (T := inject_Z FLOAT_LIMIT) in *. set (P := 2 ^ 1024) in *.
  set (d := 2 ^ 970) in *. set (F := 2 ^ 971) in *.
  split.
  - intros H. apply Qnot_lt_le. intros C.
    assert (N1 := b64_round_nearest q _ Rm). assert (N2 := b64_round_nearest q _ Rm').
    revert H C N1 N2.
    qabs (b64_round q); qabs q; qabs (b64_round q - q);
      qabs (P - F - q); qabs (- (P - F) - q); intros; lra.
  - intros H.
    destruct (Qlt_le_dec q 0) as [L|L].
    + rewrite (Qabs_neg q) in H by lra.
      assert (M := b64_round_mono q (- T) ltac:(lra)).
      qabs (b64_round q); lra.
    + rewrite (Qabs_pos q) in H by lra.
      assert (M := b64_round_mono T q H).
      qabs (b64_round q); lra.
Qed.

Lemma b64_overflow_Z (n : Z) :
  b64_overflow (inject_Z n) = (FLOAT_LIMIT <=? Z.abs n)%Z.
Proof.
  apply eq_true_iff_eq. rewrite b64_overflow_iff, Z.leb_le.
  assert (E : Qabs (inject_Z n) == inject_Z (Z.abs n)).
  { unfold Qabs, inject_Z. reflexivity. }
  rewrite E, <- Zle_Qle. reflexivity.
Qed.

Lemma b64_round_Z_nonzero (n : Z) : n <> 0%Z -> ~ b64_round (inject_Z n) == 0.
Proof.
  intros Hn E.
  assert (R1 : b64_round 1 == 1) by (vm_compute; reflexivity).
  assert (Rn1 : b64_round (- (1)) == - (1)) by (vm_compute; reflexivity).
  destruct (Z_lt_le_dec n 0) as [L|L].
  - assert (Q1 : inject_Z n <= - (1)).
    { change (- (1)) with (inject_Z (-1)). rewrite <- Zle_Qle. lia. }
    assert (M := b64_round_mono _ _ Q1). lra.
  - assert (Q1 : 1 <= inject_Z n).
    { change 1 with (inject_Z 1). rewrite <- Zle_Qle. lia. }
    assert (M := b64_round_mono _ _ Q1). lra.
Qed.

Lemma py_float_of_int_eq (n : Z) :
  py_float_of_int n
  = if (FLOAT_LIMIT <=? Z.abs n)%Z then raise OverflowError
    else ret (b64_round (inject_Z n)).
Proof. unfold py_float_of_int, py_float_result. rewrite b64_overflow_Z. reflexivity. Qed.

(** [size / shards] in closed form. *)
Lemma py_float_truediv_eq (x : Q) (n : Z) :
  py_float_truediv x n
  = match division_error n with
    | Some e => raise e
    | None => ret (b64_round (x / b64_round (inject_Z n)))
    end.
Proof.
  unfold py_float_truediv, division_error. rewrite py_float_of_int_eq.
  destruct (FLOAT_LIMIT <=? Z.abs n)%Z; [reflexivity|]. cbn [bind ret].
  destruct (Z.eqb_spec n 0) as [->|Hn]; [reflexivity|].
  destruct (Qeq_bool (b64_round (inject_Z n)) 0) eqn:E; [|reflexivity].
  apply Qeq_bool_iff in E. destruct (b64_round_Z_nonzero n Hn E).
Qed.

Lemma py_float_truediv_30 (x : Q) : py_float_truediv x 30 = ret (b64_round (x / 30)).
Proof.
  rewrite py_float_truediv_eq. change (division_error 30) with (@None PyExc).
  f_equal. apply b64_round_comp.
  assert (E : b64_round (inject_Z 30) == 30) by (vm_compute; reflexivity).
  rewrite E. reflexivity.
Qed.

(** A shard count of magnitude up to [2^53] is converted exactly. *)
Lemma ratio_exact_divisor (x : Q) (n : Z) :
  (Z.abs n <= 2 ^ 53)%Z -> ratio x n = py_int_of_float (b64_round (x / inject_Z n)).
Proof.
  intros H. unfold ratio. f_equal. apply b64_round_comp.
  rewrite (b64_round_Z n H). reflexivity.
Qed.

(** Truncating the rounded quotient of a float below [2^53] by a positive
    integer gives the truncation of the exact quotient. *)
Lemma b64_div_trunc_pos (x : Q) (y : Z) :
  b64_repr x -> Qabs x < 2 ^ 53 -> (1 <= y)%Z ->
  py_int_of_float (b64_round (x / inject_Z y)) = py_int_of_float (x / inject_Z y).
Proof.
  intros Hx Hb Hy.
  assert (Y1 : 1 <= inject_Z y) by (rewrite <- (Zle_Qle 1); exact Hy).
  destruct (Qlt_le_dec x 0) as [L|L].
  - rewrite (Qabs_neg x) in Hb by lra.
    assert (E : x / inject_Z y == - (- x / inject_Z y)) by (field; intros E0; lra).
    rewrite (b64_round_comp _ _ E).
    rewrite (py_int_of_float_comp _ _ (b64_round_opp _)), (py_int_of_float_comp _ _ E).
    rewrite !py_int_of_float_opp. f_equal.
    assert (Q0 : 0 <= - x / inject_Z y) by (apply Qle_shift_div_l; lra).
    rewrite py_int_of_float_floor by (apply b64_round_nonneg; exact Q0).
    rewrite py_int_of_float_floor by exact Q0.
    apply b64_div_floor; [apply b64_repr_opp; exact Hx | lra | exact Hb | exact Hy].
  - rewrite (Qabs_pos x) in Hb by lra.
    assert (Q0 : 0 <= x / inject_Z y) by (apply Qle_shift_div_l; lra).
    rewrite py_int_of_float_floor by (apply b64_round_nonneg; exact Q0).
    rewrite py_int_of_float_floor by exact Q0.
    apply b64_div_floor; assumption.
Qed.

Lemma b64_div_trunc (x : Q) (y : Z) :
  b64_repr x -> Qabs x < 2 ^ 53 -> y <> 0%Z ->
  py_int_of_float (b64_round (x / inject_Z y)) = py_int_of_float (x / inject_Z y).
Proof.
  intros Hx Hb Hy. destruct (Z_lt_le_dec y 0) as [L|L].
  - assert (Yn : inject_Z y < 0) by (change 0 with (inject_Z 0); rewrite <- Zlt_Qlt; exact L).
    assert (E : x / inject_Z y == - x / inject_Z (- y)).
    { rewrite inject_Z_opp. field. intros E0. lra. }
    rewrite (b64_round_comp _ _ E), (py_int_of_float_comp _ _ E).
    apply b64_div_trunc_pos; [apply b64_repr_opp; exact Hx | rewrite Qabs_opp; exact Hb | lia].
  - apply b64_div_trunc_pos; [assumption | assumption | lia].
Qed.

(** The sizes [refine_data] stores are floats. *)
Lemma py_round_repr (x : Q) (ndigits : nat) : b64_repr (py_round x ndigits).
Proof. apply b64_round_idem. Qed.

End ConversionFacts.

(** ** Facts about the first loop of [print_least_balanced] *)

Lemma division_error_none_iff (n : Z) :
  division_error n = None <-> n <> 0 /\ Z.abs n < FLOAT_LIMIT.
Proof.
  unfold division_error.
  destruct (Z.leb_spec FLOAT_LIMIT (Z.abs n)) as [H|H].
  - split; [discriminate|]. intros [_ H']. lia.
  - destruct (Z.eqb_spec n 0) as [E|E].
    + split; [discriminate|]. intros [H' _]. contradiction.
    + split; [intros _; split; assumption | reflexivity].
Qed.

Lemma division_error_kind (n : Z) (e : PyExc) :
  division_error n = Some e -> e = ZeroDivisionError \/ e = OverflowError.
Proof.
  unfold division_error. destruct (FLOAT_LIMIT <=? Z.abs n); [intros [= <-]; now right|].
  destruct (n =? 0); [intros [= <-]; now left|discriminate].
Qed.

Lemma first_error_none_iff (l : list Idx.t) :
  first_error l = None
  <-> Forall (fun r => Idx.shards r <> 0 /\ Z.abs (Idx.shards r) < FLOAT_LIMIT) l.
Proof.
  induction l as [|x l IH]; cbn [first_error].
  - split; [constructor|reflexivity].
  - destruct (division_error (Idx.shards x)) as [e|] eqn:E.
    + split; [discriminate|]. intros H. apply Forall_cons in H. destruct H as [H _].
      apply division_error_none_iff in H. congruence.
    + rewrite IH. split.
      * intros H. constructor; [now apply division_error_none_iff|exact H].
      * intros H. apply Forall_cons in H. exact (proj2 H).
Qed.

Lemma first_error_kind (l : list Idx.t) (e : PyExc) :
  first_error l = Some e -> e = ZeroDivisionError \/ e = OverflowError.
Proof.
  induction l as [|x l IH]; cbn [first_error]; [discriminate|].
  destruct (division_error (Idx.shards x)) as [e'|] eqn:E; [|exact IH].
  intros [= <-]. exact (division_error_kind _ _ E).
Qed.

Lemma first_error_zero_shards (l : list Idx.t) (r : Idx.t) :
  In r l -> Idx.shards r = 0 ->
  exists e, first_error l = Some e /\ (e = ZeroDivisionError \/ e = OverflowError).
Proof.
  intros Hin Hz. destruct (first_error l) as [e|] eqn:E.
  - exists e. split; [reflexivity|]. exact (first_error_kind _ _ E).
  - apply first_error_none_iff in E. rewrite List.Forall_forall in E.
    destruct (E r Hin) as [Hn _]. contradiction.
Qed.

Lemma first_error_zero_in_range (l : list Idx.t) (r : Idx.t) :
  In r l -> Idx.shards r = 0 ->
  Forall (fun x => Z.abs (Idx.shards x) < FLOAT_LIMIT) l ->
  first_error l = Some ZeroDivisionError.
Proof.
  intros Hin Hz Hall. induction Hall as [|x l Hx _ IH]; [contradiction|].
  cbn [first_error]. unfold division_error.
  replace (FLOAT_LIMIT <=? Z.abs (Idx.shards x)) with false by (symmetry; apply Z.leb_gt; exact Hx).
  destruct (Z.eqb_spec (Idx.shards x) 0) as [E|E]; [reflexivity|].
  destruct Hin as [->|Hin]; [contradiction|]. exact (IH Hin).
Qed.

Lemma first_error_split (l : list Idx.t) (e : PyExc) :
  first_error l = Some e ->
  exists l1 r l2,
    l = l1 ++ r :: l2 /\ first_error l1 = None /\ division_error (Idx.shards r) = Some e.
Proof.
  induction l as [|x l IH]; cbn [first_error]; [discriminate|].
  destruct (division_error (Idx.shards x)) as [e'|] eqn:E.
  - intros [= <-]. exists [], x, l. repeat split. exact E.
  - intros H. destruct (IH H) as (l1 & r & l2 & -> & H1 & Hr).
    exists (x :: l1), r, l2. repeat split; [|exact Hr].
    cbn [first_error]. now rewrite E.
Qed.

Lemma first_error_app (l1 l2 : list Idx.t) (r : Idx.t) (e : PyExc) :
  first_error l1 = None -> division_error (Idx.shards r) = Some e ->
  first_error (l1 ++ r :: l2) = Some e.
Proof.
  intros H1 Hr. induction l1 as [|x l1 IH]; cbn [app first_error].
  - now rewrite Hr.
  - cbn [first_error] in H1. destruct (division_error (Idx.shards x)); [discriminate|].
    exact (IH H1).
Qed.

Lemma assign_rec_shard_count_eq (index : Idx.t) :
  AnalyzeData.assign_rec_shard_count index
  = (Idx.set_rec_shard_count (recommended (Idx.size index)) index, None).
Proof.
  unfold AnalyzeData.assign_rec_shard_count, recommended, AnalyzeData.SHARD_SZ_GB.
  rewrite py_float_truediv_30. change (inject_Z 30) with 30%Q.
  destruct (Qle_bool 30 (Idx.size index)); [reflexivity|].
  destruct (Qlt_bool 0 (Idx.size index) && Qlt_bool (Idx.size index) 30);
    reflexivity.
Qed.

Lemma balance_body_ok (index : Idx.t) :
  division_error (Idx.shards index) = None ->
  AnalyzeData.balance_body index = (balanced index, None).
Proof.
  intros Hs. unfold AnalyzeData.balance_body, AnalyzeData.assign_balance_ratio.
  rewrite py_float_truediv_eq, Hs. cbn [ret].
  now rewrite assign_rec_shard_count_eq.
Qed.

Lemma balance_body_err (index : Idx.t) (e : PyExc) :
  division_error (Idx.shards index) = Some e ->
  AnalyzeData.balance_body index = (index, Some e).
Proof.
  intros Hs. unfold AnalyzeData.balance_body, AnalyzeData.assign_balance_ratio.
  now rewrite py_float_truediv_eq, Hs.
Qed.

Lemma balanced_same_canonical (index : Idx.t) : Idx.same_canonical index (balanced index).
Proof. repeat split. Qed.

Lemma same_canonical_refl (index : Idx.t) : Idx.same_canonical index index.
Proof. repeat split. Qed.

Lemma balance_loop_ok (self_data : list Idx.t) :
  first_error self_data = None ->
  AnalyzeData.balance_loop self_data = (map balanced self_data, None).
Proof.
  induction self_data as [|x l IH]; [reflexivity|].
  cbn [first_error]. destruct (division_error (Idx.shards x)) eqn:E; [discriminate|].
  intros H. cbn [AnalyzeData.balance_loop map].
  rewrite (balance_body_ok x E). now rewrite (IH H).
Qed.

Lemma balance_loop_first_error (l1 l2 : list Idx.t) (r : Idx.t) (e : PyExc) :
  first_error l1 = None ->
  division_error (Idx.shards r) = Some e ->
  AnalyzeData.balance_loop (l1 ++ r :: l2) = (map balanced l1 ++ r :: l2, Some e).
Proof.
  intros H1 Hr. induction l1 as [|x l1 IH]; cbn [app map AnalyzeData.balance_loop].
  - now rewrite (balance_body_err r e Hr).
  - cbn [first_error] in H1.
    destruct (division_error (Idx.shards x)) eqn:E; [discriminate|].
    rewrite (balance_body_ok x E). now rewrite (IH H1).
Qed.

Lemma balance_loop_raised (self_data : list Idx.t) :
  snd (AnalyzeData.balance_loop self_data) = first_error self_data.
Proof.
  destruct (first_error self_data) as [e|] eqn:E.
  - destruct (first_error_split _ _ E) as (l1 & r & l2 & -> & H1 & Hr).
    now rewrite (balance_loop_first_error l1 l2 r e H1 Hr).
  - now rewrite (balance_loop_ok _ E).
Qed.

Lemma Forall2_same_canonical_refl (l : list Idx.t) : Forall2 Idx.same_canonical l l.
Proof. induction l; constructor; [apply same_canonical_refl|assumption]. Qed.

Lemma Forall2_balanced (l : list Idx.t) : Forall2 Idx.same_canonical l (map balanced l).
Proof. induction l; constructor; [apply balanced_same_canonical|assumption]. Qed.

Lemma balance_loop_frame (self_data : list Idx.t) :
  Forall2 Idx.same_canonical self_data (fst (AnalyzeData.balance_loop self_data)).
Proof.
  destruct (first_error self_data) as [e|] eqn:E.
  - destruct (first_error_split _ _ E) as (l1 & r & l2 & -> & H1 & Hr).
    rewrite (balance_loop_first_error l1 l2 r e H1 Hr). cbn [fst].
    apply Forall2_app; [apply Forall2_balanced|apply Forall2_same_canonical_refl].
  - rewrite (balance_loop_ok _ E). apply Forall2_balanced.
Qed.

Lemma decorate_ext {A K : Type} (key key' : A -> Exc K) (xs : list A) :
  Forall (fun x => key x = key' x) xs -> decorate key xs = decorate key' xs.
Proof.
  induction 1 as [|x l Hx _ IH]; [reflexivity|].
  cbn [decorate]. now rewrite Hx, IH.
Qed.

Lemma print_each_ext (body body' : Idx.t -> Exc (list Line)) (l : list Idx.t) (out : list Line) :
  Forall (fun x => body x = body' x) l ->
  AnalyzeData.print_each body l out = AnalyzeData.print_each body' l out.
Proof.
  intros H. revert out. induction H as [|x l Hx _ IH]; intros out; [reflexivity|].
  cbn [AnalyzeData.print_each]. rewrite Hx. destruct (body' x); [reflexivity|apply IH].
Qed.

Lemma Forall_firstn {A : Type} (P : A -> Prop) (n : nat) (l : list A) :
  Forall P l -> Forall P (firstn n l).
Proof.
  intros H. revert n. induction H as [|x l Hx _ IH]; intros [|n]; cbn [firstn];
    constructor; auto.
Qed.

Lemma print_least_balanced_ok (self_data : list Idx.t) :
  first_error self_data = None ->
  AnalyzeData.print_least_balanced self_data
  = AnalyzeData.mkRun (map balanced self_data)
      (Text "Printing least balanced indexes"
         :: flat_map balance_lines (least_balanced self_data))
      None.
Proof.
  intros H. unfold AnalyzeData.print_least_balanced.
  rewrite (balance_loop_ok _ H).
  assert (Hall : Forall (fun x => exists y, x = balanced y) (map balanced self_data)).
  { apply List.Forall_forall. intros x Hx. apply in_map_iff in Hx.
    destruct Hx as [y [<- _]]. now exists y. }
  unfold AnalyzeData.sorted_least_balanced, py_sorted_reverse.
  rewrite (decorate_ext _ (fun x => ret (ratio_key x))).
  2:{ eapply List.Forall_impl; [|exact Hall]. intros x [y ->]. reflexivity. }
  rewrite decorate_total. cbn [bind ret].
  fold (sort_by Z.ltb ratio_key (map balanced self_data)).
  rewrite (print_each_ext _ (fun x => ret (balance_lines x))).
  2:{ apply Forall_firstn.
      eapply Permutation_Forall; [symmetry; apply sort_by_perm|].
      eapply List.Forall_impl; [|exact Hall]. intros x [y ->]. reflexivity. }
  rewrite print_each_total. reflexivity.
Qed.

Lemma print_least_balanced_err (l1 l2 : list Idx.t) (r : Idx.t) (e : PyExc) :
  first_error l1 = None ->
  division_error (Idx.shards r) = Some e ->
  AnalyzeData.print_least_balanced (l1 ++ r :: l2)
  = AnalyzeData.mkRun (map balanced l1 ++ r :: l2) [] (Some e).
Proof.
  intros H1 Hr. unfold AnalyzeData.print_least_balanced.
  now rewrite (balance_loop_first_error l1 l2 r e H1 Hr).
Qed.

Lemma print_least_balanced_raised (self_data : list Idx.t) :
  AnalyzeData.raised (AnalyzeData.print_least_balanced self_data) = first_error self_data.
Proof.
  destruct (first_error self_data) as [e|] eqn:E.
  - destruct (first_error_split _ _ E) as (l1 & r & l2 & -> & H1 & Hr).
    now rewrite (print_least_balanced_err l1 l2 r e H1 Hr).
  - now rewrite (print_least_balanced_ok _ E).
Qed.

Lemma print_least_balanced_silent (self_data : list Idx.t) (e : PyExc) :
  first_error self_data = Some e ->
  AnalyzeData.printed (AnalyzeData.print_least_balanced self_data) = [].
Proof.
  intros E. destruct (first_error_split _ _ E) as (l1 & r & l2 & -> & H1 & Hr).
  now rewrite (print_least_balanced_err l1 l2 r e H1 Hr).
Qed.

Lemma print_least_balanced_frame (self_data : list Idx.t) :
  Forall2 Idx.same_canonical self_data
          (AnalyzeData.data (AnalyzeData.print_least_balanced self_data)).
Proof.
  pose proof (balance_loop_frame self_data) as H.
  unfold AnalyzeData.print_least_balanced.
  destruct (AnalyzeData.balance_loop self_data) as [l [e|]]; cbn [fst] in H; [exact H|].
  destruct (AnalyzeData.sorted_least_balanced l); [exact H|].
  destruct (AnalyzeData.print_each _ _ _). exact H.
Qed.

(** ** Facts about [int] on strings *)

Lemma to_decimal_is_digit (c : N) (v : Z) : to_decimal c = Some v -> is_digit c = true.
Proof. unfold is_digit. now intros ->. Qed.

Lemma is_digit_int_char (c : N) : is_digit c = true -> int_char c = true.
Proof. unfold int_char. now intros ->. Qed.

Lemma is_space_int_char (c : N) : is_space c = true -> int_char c = true.
Proof. unfold int_char. intros ->. now rewrite orb_true_r. Qed.

Lemma all_space_int_char (s : PyStr) : forallb is_space s = true -> forallb int_char s = true.
Proof.
  induction s as [|c s IH]; [reflexivity|]. cbn [forallb].
  intros H. apply andb_true_iff in H. destruct H as [Hc Hs].
  now rewrite (is_space_int_char c Hc), (IH Hs).
Qed.

Lemma parse_digits_int_char (n : nat) (s : PyStr) (acc z : Z) :
  (length s <= n)%nat ->
  parse_digits acc s = Some z -> forallb int_char s = true.
Proof.
  revert s acc. induction n as [|n IH]; intros s acc Hlen H.
  - destruct s; [reflexivity|cbn in Hlen; lia].
  - destruct s as [|c s]; [reflexivity|].
    cbn [parse_digits] in H. cbn [length] in Hlen.
    destruct (to_decimal c) as [v|] eqn:Hd.
    + cbn [forallb]. rewrite (is_digit_int_char _ (to_decimal_is_digit _ _ Hd)).
      eapply IH; [|exact H]. lia.
    + destruct (c =? 95)%N eqn:Hu.
      * destruct s as [|c' s]; [discriminate|].
        destruct (to_decimal c') as [v'|] eqn:Hd'; [|discriminate].
        cbn [forallb]. unfold int_char at 1. rewrite Hu.
        rewrite (is_digit_int_char _ (to_decimal_is_digit _ _ Hd')).
        rewrite !orb_true_r. cbn [andb orb].
        eapply IH; [|exact H]. cbn [length] in Hlen. lia.
      * destruct (forallb is_space (c :: s)) eqn:Hsp; [|discriminate].
        now apply all_space_int_char.
Qed.

Lemma parse_unsigned_int_char (s : PyStr) (z : Z) :
  parse_unsigned s = Some z -> forallb int_char s = true.
Proof.
  destruct s as [|c s]; [discriminate|]. cbn [parse_unsigned].
  destruct (to_decimal c) as [v|] eqn:Hd; [|discriminate].
  intros H. cbn [forallb]. rewrite (is_digit_int_char _ (to_decimal_is_digit _ _ Hd)).
  now apply (parse_digits_int_char (length s) s v z).
Qed.

Lemma skip_space_int_char (s : PyStr) :
  forallb int_char (skip_space s) = true -> forallb int_char s = true.
Proof.
  induction s as [|c s IH]; [reflexivity|]. cbn [skip_space].
  destruct (is_space c) eqn:Hc; [|trivial].
  intros H. cbn [forallb]. now rewrite (IH H), (is_space_int_char c Hc).
Qed.

Lemma parse_int_int_char (s : PyStr) (z : Z) :
  parse_int s = Some z -> forallb int_char s = true.
Proof.
  unfold parse_int. intros H. apply skip_space_int_char.
  destruct (skip_space s) as [|c s'] eqn:E; [discriminate|].
  destruct (c =? 45)%N eqn:Hm.
  - destruct (parse_unsigned s') as [z'|] eqn:Hp; [|discriminate].
    cbn [forallb]. unfold int_char at 1. rewrite Hm, !orb_true_r.
    exact (parse_unsigned_int_char _ _ Hp).
  - destruct (c =? 43)%N eqn:Hpl.
    + cbn [forallb]. unfold int_char at 1. rewrite Hpl, !orb_true_r. cbn [orb andb].
      exact (parse_unsigned_int_char _ _ H).
    + exact (parse_unsigned_int_char _ _ H).
Qed.

Lemma py_int_of_string_int_char (s : PyStr) (z : Z) :
  py_int_of_string s = Some z -> forallb int_char s = true.
Proof.
  unfold py_int_of_string.
  destruct (length (List.filter is_digit s) <=? MAX_STR_DIGITS)%nat; [|discriminate].
  apply parse_int_int_char.
Qed.

(** A string with a character that is neither a digit, nor whitespace, nor
    an underscore, nor a sign is no integer literal. *)
Lemma py_int_of_string_bad_char (s : PyStr) :
  existsb (fun c => negb (int_char c)) s = true -> py_int_of_string s = None.
Proof.
  intros H. destruct (py_int_of_string s) as [z|] eqn:E; [|reflexivity].
  apply py_int_of_string_int_char in E.
  apply existsb_exists in H. destruct H as (c & Hin & Hc).
  rewrite forallb_forall in E. rewrite (E c Hin) in Hc. discriminate.
Qed.

(** *** Decimal numerals *)

Lemma digit_char_decimal (d : nat) :
  (d < 10)%nat -> to_decimal (digit_char d) = Some (Z.of_nat d).
Proof.
  intros H. do 10 (destruct d as [|d]; [vm_compute; reflexivity|]). lia.
Qed.

Lemma digit_char_is_digit (d : nat) : (d < 10)%nat -> is_digit (digit_char d) = true.
Proof. intros H. unfold is_digit. now rewrite (digit_char_decimal d H). Qed.

Lemma digit_char_plain (d : nat) :
  (d < 10)%nat ->
  is_space (digit_char d) = false
  /\ (digit_char d =? 45)%N = false /\ (digit_char d =? 43)%N = false.
Proof.
  intros H. do 10 (destruct d as [|d]; [vm_compute; repeat split|]). lia.
Qed.

Lemma parse_digits_numeral (ds : list nat) (acc : Z) :
  Forall (fun d => (d < 10)%nat) ds ->
  parse_digits acc (digits_string ds)
  = Some (fold_left (fun a d => 10 * a + Z.of_nat d) ds acc).
Proof.
  intros H. revert acc. induction H as [|d ds Hd _ IH]; intros acc; [reflexivity|].
  cbn [digits_string map parse_digits fold_left].
  rewrite (digit_char_decimal d Hd). apply IH.
Qed.

Lemma parse_int_numeral (ds : list nat) :
  ds <> [] ->
  Forall (fun d => (d < 10)%nat) ds ->
  parse_int (digits_string ds) = Some (digits_value ds).
Proof.
  intros Hne H. destruct H as [|d ds Hd Hds]; [contradiction|].
  unfold parse_int. cbn [digits_string map skip_space].
  destruct (digit_char_plain d Hd) as (-> & -> & ->).
  cbn [parse_unsigned]. rewrite (digit_char_decimal d Hd).
  fold (digits_string ds). rewrite (parse_digits_numeral ds _ Hds). reflexivity.
Qed.

Lemma count_digits_numeral (ds : list nat) :
  Forall (fun d => (d < 10)%nat) ds ->
  length (List.filter is_digit (digits_string ds)) = length ds.
Proof.
  induction 1 as [|d ds Hd _ IH]; [reflexivity|].
  cbn [digits_string map List.filter]. rewrite (digit_char_is_digit d Hd).
  cbn [length]. f_equal. exact IH.
Qed.

Lemma py_int_numeral (ds : list nat) :
  ds <> [] ->
  Forall (fun d => (d < 10)%nat) ds ->
  (length ds <= MAX_STR_DIGITS)%nat ->
  py_int (VStr (digits_string ds)) = inr (digits_value ds).
Proof.
  intros Hne H Hlen. cbn [py_int]. unfold py_int_of_string.
  rewrite (count_digits_numeral ds H).
  replace (length ds <=? MAX_STR_DIGITS)%nat with true by (symmetry; now apply Nat.leb_le).
  now rewrite (parse_int_numeral ds Hne H).
Qed.

Lemma fold_digits_bound (ds : list nat) (acc : Z) :
  Forall (fun d => (d < 10)%nat) ds ->
  0 <= acc ->
  0 <= fold_left (fun a d => 10 * a + Z.of_nat d) ds acc
    < (acc + 1) * 10 ^ Z.of_nat (length ds).
Proof.
  intros H. revert acc. induction H as [|d ds Hd _ IH]; intros acc Hacc.
  - cbn. lia.
  - cbn [fold_left length]. rewrite Nat2Z.inj_succ, Z.pow_succ_r by lia.
    specialize (IH (10 * acc + Z.of_nat d) ltac:(lia)).
    assert (P : 0 < 10 ^ Z.of_nat (length ds)) by (apply Z.pow_pos_nonneg; lia).
    split; [lia|]. nia.
Qed.

Lemma digits_value_bound (ds : list nat) :
  Forall (fun d => (d < 10)%nat) ds ->
  0 <= digits_value ds < 10 ^ Z.of_nat (length ds).
Proof.
  intros H. pose proof (fold_digits_bound ds 0 H ltac:(lia)) as B.
  unfold digits_value. lia.
Qed.

(** ** Sorting lists whose items agree on the keys *)

Section SortRelated.
Context {A K : Type}.
Variable lt : K -> K -> bool.
Variable f : A -> K.
Variable R : A -> A -> Prop.
Hypothesis R_key : forall x y, R x y -> f x = f y.

Lemma insert_desc_related (x x' : K * A) (l l' : list (K * A)) :
  fst x = fst x' -> R (snd x) (snd x') ->
  Forall2 (fun p p' => fst p = fst p' /\ R (snd p) (snd p')) l l' ->
  Forall2 (fun p p' => fst p = fst p' /\ R (snd p) (snd p'))
          (insert_desc lt x l) (insert_desc lt x' l').
Proof.
  intros Hk Hr H. induction H as [|y y' l l' [Hy Hy'] Hl IH]; cbn [insert_desc].
  - constructor; [now split|constructor].
  - rewrite <- Hk, <- Hy. destruct (lt (fst x) (fst y)).
    + constructor; [now split|exact IH].
    + constructor; [now split|]. constructor; [now split|exact Hl].
Qed.

Lemma sort_by_related (l l' : list A) :
  Forall2 R l l' -> Forall2 R (sort_by lt f l) (sort_by lt f l').
Proof using R_key.
  intros H. unfold sort_by.
  assert (Hd : Forall2 (fun p p' => fst p = fst p' /\ R (snd p) (snd p'))
                       (sort_desc lt (map (deco f) l)) (sort_desc lt (map (deco f) l'))).
  { induction H as [|x x' l l' Hx Hl IH]; [constructor|].
    cbn [map sort_desc foldr]. apply insert_desc_related; [now apply R_key|exact Hx|exact IH]. }
  induction Hd as [|p p' d d' [_ Hp] _ IH]; cbn [map]; constructor; assumption.
Qed.

End SortRelated.

Lemma Forall2_firstn {A B : Type} (R : A -> B -> Prop) (n : nat) (l : list A) (l' : list B) :
  Forall2 R l l' -> Forall2 R (firstn n l) (firstn n l').
Proof.
  intros H. revert n. induction H as [|x y l l' Hx _ IH]; intros [|n]; cbn [firstn];
    constructor; auto.
Qed.

Lemma flat_map_related {A B : Type} (R : A -> A -> Prop) (g : A -> list B) (l l' : list A) :
  (forall x y, R x y -> g x = g y) ->
  Forall2 R l l' -> flat_map g l = flat_map g l'.
Proof.
  intros Hg H. induction H as [|x y l l' Hx _ IH]; [reflexivity|].
  cbn [flat_map]. now rewrite (Hg _ _ Hx), IH.
Qed.

Lemma top_by_size_frame (l l' : list Idx.t) :
  Forall2 Idx.same_canonical l l' ->
  flat_map size_lines (top_by_size l) = flat_map size_lines (top_by_size l').
Proof.
  intros H. apply (flat_map_related Idx.same_canonical).
  - intros x y (Hi & Hs & _). unfold size_lines. now rewrite Hi, Hs.
  - apply Forall2_firstn, (sort_by_related _ _ Idx.same_canonical); [|exact H].
    intros x y (_ & Hs & _). now rewrite Hs.
Qed.

Lemma top_by_shards_frame (l l' : list Idx.t) :
  Forall2 Idx.same_canonical l l' ->
  flat_map shards_lines (top_by_shards l) = flat_map shards_lines (top_by_shards l').
Proof.
  intros H. apply (flat_map_related Idx.same_canonical).
  - intros x y (Hi & _ & Hs). unfold shards_lines. now rewrite Hi, Hs.
  - apply Forall2_firstn, (sort_by_related _ _ Idx.same_canonical); [|exact H].
    intros x y (_ & _ & Hs). now rewrite Hs.
Qed.

(** ** Facts about the loop of [refine_data] *)

Lemma refine_loop_spec (items : list PyVal) (refined : list Idx.t) (errors : list PyVal) :
  refine_loop items refined errors
  = (refined ++ valid_of items, errors ++ invalid_of items).
Proof.
  revert refined errors. induction items as [|x items IH]; intros refined errors.
  - cbn. now rewrite !app_nil_r.
  - cbn [refine_loop valid_of invalid_of flat_map List.filter].
    destruct (refine_entry x) as [e|d]; cbn [raises]; rewrite IH.
    + now rewrite <- app_assoc.
    + now rewrite <- app_assoc.
Qed.

Lemma routed_once (items : list PyVal) :
  (length (valid_of items) + length (invalid_of items) = length items)%nat.
Proof.
  induction items as [|x items IH]; [reflexivity|].
  cbn [valid_of invalid_of flat_map List.filter].
  fold (valid_of items). fold (invalid_of items).
  destruct (refine_entry x); cbn [raises app length]; lia.
Qed.

Lemma refine_data_iterable (data : PyVal) (items : list PyVal) :
  py_iter data = inr items ->
  refine_data data = inr (valid_of items, report_errors (invalid_of items)).
Proof.
  intros H. unfold refine_data. rewrite H. cbn [bind].
  now rewrite refine_loop_spec.
Qed.

Lemma refine_entry_dict (d : gmap PyStr PyVal) :
  refine_entry (VDict d)
  = match d !! str "index", d !! str "pri.store.size", d !! str "pri" with
    | Some name, Some raw_size, Some raw_pri =>
        let* bytes := py_int raw_size in
        let* gb := py_int_truediv bytes (1000 ^ 3) in
        let* shards := py_int raw_pri in
        ret (Idx.mk name (py_round gb 2) shards None None)
    | Some _, Some raw_size, None =>
        let* bytes := py_int raw_size in
        let* gb := py_int_truediv bytes (1000 ^ 3) in
        raise KeyError
    | _, _, _ => raise KeyError
    end.
Proof.
  unfold refine_entry, py_getitem.
  destruct (d !! str "index"); [|reflexivity]. cbn [bind ret].
  destruct (d !! str "pri.store.size"); [|destruct (d !! str "pri"); reflexivity].
  cbn [bind ret].
  destruct (d !! str "pri"); cbn [bind ret]; reflexivity.
Qed.

Lemma refine_entry_not_a_dict (x : PyVal) :
  match x with VDict _ => False | _ => True end ->
  refine_entry x = inl TypeError.
Proof. destruct x; intros H; try reflexivity. contradiction. Qed.

Lemma py_int_truediv_gb (bytes : Z) :
  py_int_truediv bytes (1000 ^ 3)
  = if b64_overflow (inject_Z bytes / inject_Z (1000 ^ 3))
    then raise OverflowError
    else ret (b64_round (inject_Z bytes / inject_Z (1000 ^ 3))).
Proof. reflexivity. Qed.

(** [refine_entry] succeeds exactly on the items [converted] describes. *)
Lemma refine_entry_converted (x : PyVal) :
  match refine_entry x with
  | inr d => converted x = Some d
  | inl _ => converted x = None
  end.
Proof.
  destruct x as [| | | | | |d]; try reflexivity.
  rewrite refine_entry_dict. unfold converted.
  destruct (d !! str "index") as [name|]; [|reflexivity].
  destruct (d !! str "pri.store.size") as [raw_size|];
    [|destruct (d !! str "pri"); reflexivity].
  destruct (d !! str "pri") as [raw_pri|].
  - destruct (py_int raw_size) as [e|bytes]; [reflexivity|]. cbn [bind].
    rewrite py_int_truediv_gb.
    destruct (b64_overflow (inject_Z bytes / inject_Z (1000 ^ 3)));
      [destruct (py_int raw_pri); reflexivity|].
    cbn [bind ret]. destruct (py_int raw_pri); reflexivity.
  - destruct (py_int raw_size) as [e|bytes]; [reflexivity|]. cbn [bind].
    destruct (py_int_truediv bytes (1000 ^ 3)); reflexivity.
Qed.

Lemma valid_of_converted (items : list PyVal) :
  valid_of items
  = flat_map (fun x => match converted x with Some d => [d] | None => [] end) items.
Proof.
  unfold valid_of. induction items as [|x items IH]; [reflexivity|].
  cbn [flat_map]. rewrite IH.
  pose proof (refine_entry_converted x) as H.
  destruct (refine_entry x); rewrite H; reflexivity.
Qed.

Lemma invalid_of_converted (items : list PyVal) :
  invalid_of items
  = List.filter (fun x => match converted x with None => true | Some _ => false end) items.
Proof.
  unfold invalid_of. induction items as [|x items IH]; [reflexivity|].
  cbn [List.filter]. rewrite IH.
  pose proof (refine_entry_converted x) as H.
  destruct (refine_entry x); rewrite H; reflexivity.
Qed.

Lemma valid_of_app (l1 l2 : list PyVal) : valid_of (l1 ++ l2) = valid_of l1 ++ valid_of l2.
Proof. unfold valid_of. apply flat_map_app. Qed.

Lemma invalid_of_app (l1 l2 : list PyVal) :
  invalid_of (l1 ++ l2) = invalid_of l1 ++ invalid_of l2.
Proof. unfold invalid_of. apply List.filter_app. Qed.

Lemma valid_of_no_dict (items : list PyVal) :
  Forall (fun x => match x with VDict _ => False | _ => True end) items ->
  valid_of items = [] /\ invalid_of items = items.
Proof.
  induction 1 as [|x l Hx _ [IH1 IH2]]; [split; reflexivity|].
  unfold valid_of, invalid_of in *. cbn [flat_map List.filter].
  rewrite (refine_entry_not_a_dict x Hx). cbn [raises app].
  now rewrite IH1, IH2.
Qed.

(** [bytes / 1000**3] overflows from [FLOAT_LIMIT * 1000^3] bytes on. *)
Lemma b64_overflow_gb (bytes : Z) :
  b64_overflow (inject_Z bytes / inject_Z (1000 ^ 3))
  = negb (Z.abs bytes <? FLOAT_LIMIT * 1000 ^ 3).
Proof.
  apply eq_true_iff_eq. rewrite b64_overflow_iff, negb_true_iff, Z.ltb_ge.
  assert (E : (Qabs (inject_Z bytes / inject_Z (1000 ^ 3))
               == inject_Z (Z.abs bytes) / inject_Z (1000 ^ 3))%Q).
  { unfold Qdiv. rewrite Qabs_Qmult. apply Qmult_comp; reflexivity. }
  rewrite E, Zle_Qle, inject_Z_mult.
  assert (P : (0 < inject_Z (1000 ^ 3))%Q) by reflexivity.
  set (T := inject_Z FLOAT_LIMIT). set (X := inject_Z (Z.abs bytes)).
  set (C := inject_Z (1000 ^ 3)) in *. clearbody T X C.
  split; intros H.
  - assert (Ex : (X / C * C == X)%Q) by (field; intros E0; lra).
    apply (Qmult_le_compat_r _ _ C) in H; lra.
  - apply Qle_shift_div_l; assumption.
Qed.

Lemma insert_size_lookup (d : gmap PyStr PyVal) (v : PyVal) :
  <[str "pri.store.size" := v]> d !! str "index" = d !! str "index"
  /\ <[str "pri.store.size" := v]> d !! str "pri.store.size" = Some v
  /\ <[str "pri.store.size" := v]> d !! str "pri" = d !! str "pri".
Proof.
  rewrite lookup_insert_eq. rewrite !lookup_insert_ne by (vm_compute; discriminate).
  repeat split.
Qed.

Lemma refine_data_single (x : PyVal) :
  refine_data (VList [x])
  = match refine_entry x with
    | inr d => inr ([d], [])
    | inl _ => inr ([], [LErrors [x]])
    end.
Proof.
  rewrite (refine_data_iterable (VList [x]) [x] eq_refl).
  unfold valid_of, invalid_of. cbn [flat_map List.filter].
  destruct (refine_entry x); reflexivity.
Qed.

Section RoundFacts.
#[local] Open Scope Q_scope.

(** [round(x, 2)] of a finite float is a finite float. *)
Lemma py_round_finite (x : Q) :
  b64_repr x -> Qabs x < 2 ^ 1024 -> Qabs (py_round x 2) < 2 ^ 1024.
Proof.
  intros Hx Hfin. unfold py_round. change (10 ^ Z.of_nat 2)%Z with 100%Z.
  change (Z.to_pos 100) with 100%positive. change (inject_Z 100) with 100.
  set (h := round_half_even (x * 100)).
  assert (Eh : h # 100 == inject_Z h / 100) by apply Qmake_Qdiv.
  destruct (Qlt_le_dec (Qabs x) (2 ^ 53)) as [Small|Big].
  - apply Qabs_Qlt_condition in Small. destruct Small as [S1 S2].
    assert (B : (- (2 ^ 53 * 100) <= h <= 2 ^ 53 * 100)%Z).
    { apply round_half_even_between.
      - rewrite inject_Z_opp, inject_Z_mult. change (inject_Z (2 ^ 53)) with (2 ^ 53).
        change (inject_Z 100) with 100. lra.
      - rewrite inject_Z_mult. change (inject_Z (2 ^ 53)) with (2 ^ 53).
        change (inject_Z 100) with 100. lra. }
    destruct B as [B1 B2]. rewrite Zle_Qle in B1, B2.
    rewrite inject_Z_opp, inject_Z_mult in B1. rewrite inject_Z_mult in B2.
    change (inject_Z (2 ^ 53)) with (2 ^ 53) in B1, B2.
    change (inject_Z 100) with 100 in B1, B2.
    assert (R1 : b64_round (2 ^ 53) == 2 ^ 53) by (vm_compute; reflexivity).
    assert (R2 : b64_round (- 2 ^ 53) == - 2 ^ 53) by (vm_compute; reflexivity).
    assert (M1 : b64_round (h # 100) <= b64_round (2 ^ 53)).
    { apply b64_round_mono. rewrite Eh. apply Qle_shift_div_r; lra. }
    assert (M2 : b64_round (- 2 ^ 53) <= b64_round (h # 100)).
    { apply b64_round_mono. rewrite Eh. apply Qle_shift_div_l; lra. }
    assert (P : 2 ^ 53 < 2 ^ 1024) by reflexivity.
    apply Qabs_Qlt_condition. lra.
  - assert (N : ~ x == 0).
    { intros E0. rewrite (Qabs_wd _ _ E0) in Big. vm_compute in Big. now apply Big. }
    destruct (b64_repr_grid x Hx) as [M HM].
    assert (E0 : (0 <= b64_exp x)%Z).
    { assert (L := ilog2_ge (Qabs x) 53 Big). unfold b64_exp. lia. }
    assert (Ex : x == inject_Z (M * 2 ^ b64_exp x)).
    { rewrite inject_Z_mult, pow2_Z by exact E0. exact HM. }
    assert (Et : x * 100 == inject_Z (M * 2 ^ b64_exp x * 100)).
    { rewrite (inject_Z_mult _ 100). change (inject_Z 100) with 100. rewrite <- Ex. reflexivity. }
    assert (Hh : h = (M * 2 ^ b64_exp x * 100)%Z).
    { unfold h. rewrite (round_half_even_comp _ _ Et). apply round_half_even_Z. }
    assert (Eq : h # 100 == x).
    { rewrite Eh, Hh, (inject_Z_mult _ 100), <- Ex. change (inject_Z 100) with 100. field. }
    rewrite (b64_round_comp _ _ Eq). unfold b64_repr in Hx. rewrite (Qabs_wd _ _ Hx).
    exact Hfin.
Qed.

Lemma py_float_result_finite (q gb : Q) :
  py_float_result q = inr gb -> b64_repr gb /\ Qabs gb < 2 ^ 1024.
Proof.
  unfold py_float_result, b64_overflow.
  destruct (Qle_bool (2 ^ 1024) (Qabs (b64_round q))) eqn:E; [discriminate|].
  intros [= <-]. split; [apply b64_round_idem|].
  apply Qnot_le_lt. intros H. apply Qle_bool_iff in H. congruence.
Qed.

End RoundFacts.

(** The sizes of the records [refine_data] returns are finite floats. *)
Lemma refine_entry_size_finite (x : PyVal) (d : Idx.t) :
  refine_entry x = inr d -> b64_repr (Idx.size d) /\ (Qabs (Idx.size d) < 2 ^ 1024)%Q.
Proof.
  unfold refine_entry.
  destruct (py_getitem x (str "index")) as [|name]; [discriminate|]. cbn [bind].
  destruct (py_getitem x (str "pri.store.size")) as [|raw_size]; [discriminate|]. cbn [bind].
  destruct (py_int raw_size) as [|bytes]; [discriminate|]. cbn [bind].
  destruct (py_int_truediv bytes (1000 ^ 3)) as [|gb] eqn:Hgb; [discriminate|]. cbn [bind].
  destruct (py_getitem x (str "pri")) as [|raw_pri]; [discriminate|]. cbn [bind].
  destruct (py_int raw_pri) as [|shards]; [discriminate|]. cbn [bind ret].
  intros [= <-]. cbn [Idx.size].
  unfold py_int_truediv in Hgb. change (1000 ^ 3 =? 0) with false in Hgb.
  destruct (py_float_result_finite _ _ Hgb) as [Hr Hf].
  split; [apply py_round_repr|now apply py_round_finite].
Qed.

(** ** Facts about the two analysis formulas *)

Section FormulaFacts.
#[local] Open Scope Q_scope.

Lemma Qle_bool_false (a b : Q) : b < a -> Qle_bool a b = false.
Proof.
  intros H. destruct (Qle_bool a b) eqn:E; [|reflexivity].
  apply Qle_bool_iff in E. lra.
Qed.

Lemma recommended_nonpositive (size : Q) : size <= 0 -> recommended size = 0%Z.
Proof.
  intros H. unfold recommended. rewrite Qle_bool_false by lra.
  replace (Qlt_bool 0 size) with false by (symmetry; now apply Qlt_bool_false_iff).
  reflexivity.
Qed.

Lemma recommended_small (size : Q) : 0 < size -> size < 30 -> recommended size = 1%Z.
Proof.
  intros H0 H30. unfold recommended. rewrite Qle_bool_false by lra.
  apply Qlt_bool_iff in H0, H30. now rewrite H0, H30.
Qed.

Lemma recommended_large (size : Q) :
  30 <= size -> recommended size = py_int_of_float (b64_round (size / 30)).
Proof.
  intros H. unfold recommended. apply Qle_bool_iff in H. now rewrite H.
Qed.

Lemma recommended_large_floor (size : Q) :
  30 <= size -> recommended size = Qfloor (b64_round (size / 30)).
Proof.
  intros H. rewrite (recommended_large size H). apply py_int_of_float_floor.
  apply b64_round_nonneg. apply Qle_shift_div_l; lra.
Qed.

(** On a float below [2^53] the rounding of the quotient does not show. *)
Lemma recommended_floor (size : Q) :
  30 <= size -> moderate size -> recommended size = Qfloor (size / 30).
Proof.
  intros H [Hr Hb]. rewrite (recommended_large size H).
  change 30 with (inject_Z 30).
  rewrite (b64_div_trunc_pos size 30 Hr Hb ltac:(lia)).
  apply py_int_of_float_floor. apply Qle_shift_div_l; [reflexivity|].
  change (inject_Z 30) with 30 in *. lra.
Qed.


Lemma recommended_nonneg (size : Q) : (0 <= recommended size)%Z.
Proof.
  destruct (Qlt_le_dec size 30) as [H30|H30].
  - destruct (Qlt_le_dec 0 size) as [H0|H0].
    + rewrite recommended_small by assumption. lia.
    + rewrite recommended_nonpositive by assumption. lia.
  - rewrite recommended_large_floor by assumption.
    change 0%Z with (Qfloor 0). apply Qfloor_resp_le.
    apply b64_round_nonneg. apply Qle_shift_div_l; lra.
Qed.

Lemma recommended_from_30 (size : Q) : 30 <= size -> (1 <= recommended size)%Z.
Proof.
  intros H. rewrite recommended_large_floor by assumption.
  change 1%Z with (Qfloor 1). apply Qfloor_resp_le.
  assert (R1 : b64_round 1 == 1) by (vm_compute; reflexivity).
  rewrite <- R1. apply b64_round_mono. apply Qle_shift_div_l; lra.
Qed.

Lemma recommended_below_30 (size : Q) : size < 30 -> (recommended size <= 1)%Z.
Proof.
  intros H. destruct (Qlt_le_dec 0 size) as [H0|H0].
  - rewrite recommended_small by assumption. lia.
  - rewrite recommended_nonpositive by assumption. lia.
Qed.

Lemma recommended_monotone (a b : Q) : a <= b -> (recommended a <= recommended b)%Z.
Proof.
  intros Hab. destruct (Qlt_le_dec b 30) as [Hb|Hb].
  - destruct (Qlt_le_dec 0 a) as [Ha|Ha].
    + rewrite !recommended_small by lra. lia.
    + rewrite (recommended_nonpositive a Ha). apply recommended_nonneg.
  - destruct (Qlt_le_dec a 30) as [Ha|Ha].
    + pose proof (recommended_below_30 a Ha). pose proof (recommended_from_30 b Hb). lia.
    + rewrite !recommended_large_floor by assumption.
      apply Qfloor_resp_le, b64_round_mono.
      apply Qle_shift_div_l; [lra|].
      assert (E : a / 30 * 30 == a) by field. rewrite E. exact Hab.
Qed.

(** The balance ratio of a float below [2^53] over a shard count of
    magnitude up to [2^53] is the exact quotient truncated toward zero. *)
Lemma ratio_trunc (size : Q) (shards : Z) :
  moderate size -> shards <> 0%Z -> (Z.abs shards <= 2 ^ 53)%Z ->
  ratio size shards = py_int_of_float (size / inject_Z shards).
Proof.
  intros [Hr Hb] Hs Hle. rewrite (ratio_exact_divisor size shards Hle).
  now apply b64_div_trunc.
Qed.

End FormulaFacts.


(** * The claims *)

(** ** The normaliser *)

(** C4, as stated, fails: [refine_data] returns one list, the valid
    records.  An invalid entry is not part of the value returned; it only
    appears in the line printed during the call, and when every entry is
    valid nothing about invalid entries is produced at all. *)
Lemma refine_data_returns_valid_only :
  returned_by
    (refine_data
       (VList [VNone;
               raw (VStr (str "a")) (VStr (str "1234567891")) (VStr (str "3"))]))
  = inr [Idx.mk (VStr (str "a")) (float (123 # 100)) 3 None None]
  /\ printed_by
       (refine_data
          (VList [VNone;
                  raw (VStr (str "a")) (VStr (str "1234567891")) (VStr (str "3"))]))
     = inr [LErrors [VNone]]
  /\ refine_data (VList [raw (VStr (str "a")) (VStr (str "1234567891")) (VStr (str "3"))])
     = inr ([Idx.mk (VStr (str "a")) (float (123 # 100)) 3 None None], []).
Proof. repeat split; vm_compute; reflexivity. Qed.

(** C4, amended.  On an iterable input, [refine_data] returns the records
    of the entries that convert, in input order, and prints the entries
    that do not, in input order, in one line that is left out when there
    is none.  Every entry is in exactly one of the two lists, so the
    lengths add up to the number of entries; an entry that is not a dict
    is always among the invalid ones. *)
Theorem refine_data_conservation (data : PyVal) (items : list PyVal) :
  py_iter data = inr items ->
  let valid :=
    flat_map (fun x => match converted x with Some d => [d] | None => [] end) items in
  let invalid :=
    List.filter (fun x => match converted x with None => true | Some _ => false end) items in
  returned_by (refine_data data) = inr valid
  /\ printed_by (refine_data data)
     = inr (match invalid with [] => [] | _ :: _ => [LErrors invalid] end)
  /\ refine_loop items [] [] = (valid, invalid)
  /\ (length valid + length invalid = length items)%nat
  /\ (forall x, In x items ->
        (converted x = None <-> In x invalid)
        /\ (forall d, converted x = Some d -> In d valid))
  /\ (forall x, In x items -> match x with VDict _ => False | _ => True end ->
        In x invalid).
Proof.
  intros H valid invalid.
  assert (Ev : valid_of items = valid) by apply valid_of_converted.
  assert (Ei : invalid_of items = invalid) by apply invalid_of_converted.
  split; [|split; [|split; [|split; [|split]]]].
  - rewrite (refine_data_iterable _ _ H), Ev. reflexivity.
  - rewrite (refine_data_iterable _ _ H), Ei. reflexivity.
  - rewrite refine_loop_spec, Ev, Ei. reflexivity.
  - rewrite <- Ev, <- Ei. apply routed_once.
  - intros x Hx. split.
    + unfold invalid. rewrite filter_In. split.
      * intros E. split; [exact Hx|]. now rewrite E.
      * intros [_ E]. destruct (converted x); [discriminate|reflexivity].
    + intros d E. unfold valid. apply in_flat_map. exists x. split; [exact Hx|].
      rewrite E. now left.
  - intros x Hx Hd. unfold invalid. apply filter_In. split; [exact Hx|].
    destruct x; try reflexivity. contradiction.
Qed.

Lemma refine_data_conservation_witness :
  returned_by
    (refine_data
       (VList [raw (VStr (str "a")) (VStr (str "1234567891")) (VStr (str "3"));
               raw (VStr (str "b")) (VStr (str "oops")) (VStr (str "3")); VNone]))
  = inr [Idx.mk (VStr (str "a")) (float (123 # 100)) 3 None None]
  /\ printed_by
       (refine_data
          (VList [raw (VStr (str "a")) (VStr (str "1234567891")) (VStr (str "3"));
                  raw (VStr (str "b")) (VStr (str "oops")) (VStr (str "3")); VNone]))
     = inr [LErrors [raw (VStr (str "b")) (VStr (str "oops")) (VStr (str "3")); VNone]].
Proof.
  destruct (refine_data_conservation
              (VList [raw (VStr (str "a")) (VStr (str "1234567891")) (VStr (str "3"));
                      raw (VStr (str "b")) (VStr (str "oops")) (VStr (str "3")); VNone])
              _ eq_refl) as (Hr & Hp & _).
  split.
  - rewrite Hr. vm_compute. reflexivity.
  - rewrite Hp. vm_compute. reflexivity.
Defined.



(** C5, as stated, fails: the index name is copied as it is, so a record
    whose name is the empty string (or is not a string at all) is accepted
    with that name. *)
Lemma refine_data_keeps_empty_index_name :
  refine_data (VList [raw (VStr (str "")) (VStr (str "1000000000")) (VStr (str "1"))])
  = inr ([Idx.mk (VStr (str "")) (float 1) 1 None None], [])
  /\ is_nonempty_string (Idx.index (Idx.mk (VStr (str "")) (float 1) 1 None None)) = false.
Proof. split; vm_compute; reflexivity. Qed.

(** C5, amended.  For every raw record that has an index-name field and
    whose byte-size and shard-count fields convert through [int] to [B] and
    [S]: when [B] is below [FLOAT_LIMIT * 1000^3] in magnitude,
    [refine_data] produces the record whose name is the raw name
    unchanged, whose shard count is [S] and whose size is
    [round(B / 1000**3, 2)], computed on floats: [gb] is the finite float
    nearest to [B / 10^9], and the size is the finite float nearest to
    [h / 100], where [h] is the integer nearest to [100 * gb] (the even one
    at a tie).
    From [FLOAT_LIMIT * 1000^3] bytes on, the division raises
    [OverflowError] and the record goes to the errors. *)
Theorem refine_entry_round_trip
    (d : gmap PyStr PyVal) (name vsize vpri : PyVal) (B S : Z) :
  d !! str "index" = Some name ->
  d !! str "pri.store.size" = Some vsize ->
  d !! str "pri" = Some vpri ->
  py_int vsize = inr B ->
  py_int vpri = inr S ->
  let exact := (inject_Z B / inject_Z (1000 ^ 3))%Q in
  if Z.abs B <? FLOAT_LIMIT * 1000 ^ 3 then
    exists gb size h,
      py_int_truediv B (1000 ^ 3) = inr gb
      /\ size = py_round gb 2
      /\ refine_entry (VDict d) = inr (Idx.mk name size S None None)
      /\ refine_data (VList [VDict d]) = inr ([Idx.mk name size S None None], [])
      /\ (b64_repr gb /\ (Qabs gb < 2 ^ 1024)%Q)
      /\ (forall f, b64_repr f -> (Qabs (gb - exact) <= Qabs (f - exact))%Q)
      /\ rhe_rel (gb * 100) h
      /\ (b64_repr size /\ (Qabs size < 2 ^ 1024)%Q)
      /\ (forall f, b64_repr f ->
            (Qabs (size - inject_Z h / 100) <= Qabs (f - inject_Z h / 100))%Q)
  else
    refine_entry (VDict d) = inl OverflowError
    /\ refine_data (VList [VDict d]) = inr ([], [LErrors [VDict d]]).
Proof.
  intros Hn Hs Hp HB HS exact.
  assert (E : refine_entry (VDict d)
              = let* gb := py_int_truediv B (1000 ^ 3) in
                ret (Idx.mk name (py_round gb 2) S None None)).
  { rewrite refine_entry_dict, Hn, Hs, Hp, HB. cbn [bind].
    destruct (py_int_truediv B (1000 ^ 3)); [reflexivity|]. cbn [bind]. now rewrite HS. }
  rewrite py_int_truediv_gb, b64_overflow_gb in E.
  destruct (Z.abs B <? FLOAT_LIMIT * 1000 ^ 3) eqn:Hr; cbn [negb bind ret] in E.
  - exists (b64_round exact), (py_round (b64_round exact) 2),
           (round_half_even (b64_round exact * 100)).
    split; [rewrite py_int_truediv_gb, b64_overflow_gb, Hr; reflexivity|].
    split; [reflexivity|]. split; [exact E|].
    split; [rewrite refine_data_single, E; reflexivity|].
    assert (Hfin : b64_repr (b64_round exact) /\ (Qabs (b64_round exact) < 2 ^ 1024)%Q).
    { apply (py_float_result_finite exact). unfold py_float_result.
      unfold exact. now rewrite b64_overflow_gb, Hr. }
    split; [exact Hfin|].
    split; [intros f Hf; now apply b64_round_nearest|].
    split; [apply round_half_even_spec|].
    split; [split; [apply py_round_repr|apply py_round_finite; apply Hfin]|].
    intros f Hf. unfold py_round. change (10 ^ Z.of_nat 2) with 100.
    change (Z.to_pos 100) with 100%positive. change (inject_Z 100) with 100%Q.
    set (h := round_half_even (b64_round exact * 100)).
    assert (Eh : (h # 100 == inject_Z h / 100)%Q) by apply Qmake_Qdiv.
    rewrite <- Eh. now apply b64_round_nearest.
  - split; [exact E|]. rewrite refine_data_single, E. reflexivity.
Qed.

Lemma refine_entry_round_trip_witness :
  refine_data (VList [raw (VStr (str "logs-2024")) (VStr (str "5000000")) (VStr (str "3"))])
  = inr ([Idx.mk (VStr (str "logs-2024")) (float (1 # 100)) 3 None None], []).
Proof.
  pose proof (refine_entry_round_trip
                (<[str "index" := VStr (str "logs-2024")]>
                   (<[str "pri.store.size" := VStr (str "5000000")]>
                      (<[str "pri" := VStr (str "3")]> ∅)))
                (VStr (str "logs-2024")) (VStr (str "5000000")) (VStr (str "3")) 5000000 3
                eq_refl eq_refl eq_refl eq_refl eq_refl) as H.
  cbn zeta in H.
  change (Z.abs 5000000 <? FLOAT_LIMIT * 1000 ^ 3) with true in H.
  destruct H as (gb & size & h & Hgb & Hsize & _ & Hdata & _).
  unfold raw. rewrite Hdata, Hsize.
  vm_compute in Hgb. injection Hgb as <-. vm_compute. reflexivity.
Defined.

(** C10, as stated, fails: a byte size that is a float is truncated by
    [int] and the record is converted. *)
Lemma refine_data_accepts_float_size :
  refine_data (VList [raw (VStr (str "a")) (VFloat (FFin (3000000001 # 2))) (VInt 1)])
  = inr ([Idx.mk (VStr (str "a")) (float (150 # 100)) 1 None None], []).
Proof. vm_compute. reflexivity. Qed.

(** C10, amended.  A byte size given as a string is read by [int]: when
    [int] refuses the string, as it does for every string holding a
    character that is neither a digit, nor whitespace, nor an underscore,
    nor a sign (a decimal point, an exponent letter), the record goes to
    the errors, whatever its other fields are; when [int] reads [B], the
    record is treated as if the field held the int [B].  A byte size given
    as a finite float is not refused: the record is treated as if the field
    held the float truncated toward zero.  A NaN or an infinity makes the
    record go to the errors. *)
Theorem refine_entry_size_by_int_coercion (d : gmap PyStr PyVal) (vsize : PyVal) :
  d !! str "pri.store.size" = Some vsize ->
  match vsize with
  | VStr s =>
      (existsb (fun c => negb (int_char c)) s = true -> py_int_of_string s = None)
      /\ (py_int_of_string s = None ->
          raises (refine_entry (VDict d)) = true
          /\ (is_Some (d !! str "index") -> refine_entry (VDict d) = inl ValueError)
          /\ refine_data (VList [VDict d]) = inr ([], [LErrors [VDict d]]))
      /\ (forall B, py_int_of_string s = Some B ->
          refine_entry (VDict d)
          = refine_entry (VDict (<[str "pri.store.size" := VInt B]> d)))
  | VFloat (FFin q) =>
      refine_entry (VDict d)
      = refine_entry (VDict (<[str "pri.store.size" := VInt (py_int_of_float q)]> d))
  | VFloat FNaN | VFloat (FInf _) =>
      raises (refine_entry (VDict d)) = true
      /\ refine_data (VList [VDict d]) = inr ([], [LErrors [VDict d]])
  | _ => True
  end.
Proof.
  intros Hs.
  assert (Hfail : forall e, py_int vsize = inl e ->
            raises (refine_entry (VDict d)) = true
            /\ (is_Some (d !! str "index") -> refine_entry (VDict d) = inl e)
            /\ refine_data (VList [VDict d]) = inr ([], [LErrors [VDict d]])).
  { intros e He.
    assert (R : raises (refine_entry (VDict d)) = true
                /\ (is_Some (d !! str "index") -> refine_entry (VDict d) = inl e)).
    { rewrite refine_entry_dict, Hs.
      destruct (d !! str "index") as [name|]; [|split; [reflexivity|intros [? [=]]]].
      destruct (d !! str "pri") as [raw_pri|]; rewrite He; split; reflexivity. }
    destruct R as [R1 R2]. split; [exact R1|]. split; [exact R2|].
    rewrite refine_data_single. destruct (refine_entry (VDict d)); [reflexivity|discriminate]. }
  assert (Hsame : forall B, py_int vsize = inr B ->
            refine_entry (VDict d)
            = refine_entry (VDict (<[str "pri.store.size" := VInt B]> d))).
  { intros B HB. rewrite !refine_entry_dict.
    destruct (insert_size_lookup d (VInt B)) as (-> & -> & ->).
    rewrite Hs. destruct (d !! str "index"); [|reflexivity].
    destruct (d !! str "pri"); rewrite HB; reflexivity. }
  destruct vsize as [| | |[q|neg|]|s| |]; try exact I.
  - apply Hsame. reflexivity.
  - destruct (Hfail OverflowError eq_refl) as (R1 & _ & R3). split; assumption.
  - destruct (Hfail ValueError eq_refl) as (R1 & _ & R3). split; assumption.
  - split; [apply py_int_of_string_bad_char|]. split.
    + intros Hnone. apply Hfail. cbn [py_int]. now rewrite Hnone.
    + intros B HB. apply Hsame. cbn [py_int]. now rewrite HB.
Qed.

Lemma refine_entry_size_by_int_coercion_witness :
  refine_data (VList [raw (VStr (str "a")) (VStr (str "15e-1")) (VInt 1)])
  = inr ([], [LErrors [raw (VStr (str "a")) (VStr (str "15e-1")) (VInt 1)]])
  /\ refine_entry (raw (VStr (str "a")) (VFloat (FFin (3000000001 # 2))) (VInt 1))
     = inr (Idx.mk (VStr (str "a")) (float (150 # 100)) 1 None None).
Proof.
  split.
  - pose proof (refine_entry_size_by_int_coercion
                  (<[str "index" := VStr (str "a")]>
                     (<[str "pri.store.size" := VStr (str "15e-1")]>
                        (<[str "pri" := VInt 1]> ∅)))
                  (VStr (str "15e-1")) eq_refl) as (Hbad & Hnone & _).
    apply Hnone. apply Hbad. vm_compute. reflexivity.
  - unfold raw.
    assert (Hl : (<[str "index" := VStr (str "a")]>
                    (<[str "pri.store.size" := VFloat (FFin (3000000001 # 2))]>
                       (<[str "pri" := VInt 1]> (∅ : gmap PyStr PyVal))))
                 !! str "pri.store.size" = Some (VFloat (FFin (3000000001 # 2))))
      by (vm_compute; reflexivity).
    rewrite (refine_entry_size_by_int_coercion _ _ Hl).
    vm_compute. reflexivity.
Defined.

(** ** The analyser *)

(** C8. [print_largest_indexes] ranks [self.data] by decreasing size: the
    sorted list is a permutation of the data, every item is at least as
    large as the items after it, items of equal size keep their input
    order, and the report shows the first five items of it, all of them
    when there are fewer than five. *)
Theorem top_by_size_stable_descending (self_data : list Idx.t) :
  exists sorted,
    AnalyzeData.sorted_largest_index self_data = inr sorted
    /\ Permutation sorted self_data
    /\ StronglySorted (fun a b => (Idx.size b <= Idx.size a)%Q) sorted
    /\ (forall q,
          List.filter (fun x => Qeq_bool (Idx.size x) q) sorted
          = List.filter (fun x => Qeq_bool (Idx.size x) q) self_data)
    /\ top_by_size self_data = firstn 5 sorted
    /\ length (top_by_size self_data) = Nat.min 5 (length self_data)
    /\ AnalyzeData.print_largest_indexes self_data
       = AnalyzeData.mkRun self_data
           (Text "Printing largest indexes by storage size"
              :: flat_map size_lines (top_by_size self_data))
           None.
Proof.
  exists (sort_by Qlt_bool Idx.size self_data).
  split; [apply py_sorted_reverse_total|].
  split; [apply sort_by_perm|].
  split.
  { eapply StronglySorted_weaken;
      [|apply (sort_by_sorted Qlt_bool Idx.size Qlt_bool_asym Qlt_bool_ge_trans)].
    intros a b H. now apply Qlt_bool_false_iff. }
  split.
  { intros q. apply (sort_by_stable Qlt_bool Idx.size (fun k => Qeq_bool k q)).
    intros a b. apply Qlt_bool_eq_class. }
  split; [reflexivity|].
  split.
  { unfold top_by_size. now rewrite length_firstn, sort_by_length. }
  apply print_largest_indexes_eq.
Qed.

(** C1.  A record with [shards == 0] makes the first loop of
    [print_least_balanced] fail at its division: the call ends with an
    exception before anything is printed, so there is no least-balanced
    output at all.  The exception is [ZeroDivisionError] unless an earlier
    record has a shard count too large for a float, which makes the same
    division raise [OverflowError] first.  The record is ranked by the two
    other reports like any other: it is shown whenever at most five
    records are not below it. *)
Theorem zero_shards_aborts_least_balanced (self_data : list Idx.t) (r : Idx.t) :
  In r self_data ->
  Idx.shards r = 0 ->
  (exists e,
      AnalyzeData.raised (AnalyzeData.print_least_balanced self_data) = Some e
      /\ (e = ZeroDivisionError \/ e = OverflowError))
  /\ (Forall (fun x => Z.abs (Idx.shards x) < FLOAT_LIMIT) self_data ->
      AnalyzeData.raised (AnalyzeData.print_least_balanced self_data)
      = Some ZeroDivisionError)
  /\ AnalyzeData.printed (AnalyzeData.print_least_balanced self_data) = []
  /\ ((length (List.filter (not_below Qlt_bool Idx.size r) self_data) <= 5)%nat ->
      In r (top_by_size self_data))
  /\ ((length (List.filter (not_below Z.ltb Idx.shards r) self_data) <= 5)%nat ->
      In r (top_by_shards self_data)).
Proof.
  intros Hin Hz.
  destruct (first_error_zero_shards self_data r Hin Hz) as (e & He & Hk).
  split; [exists e; split; [now rewrite print_least_balanced_raised|exact Hk]|].
  split.
  { intros Hall. rewrite print_least_balanced_raised.
    now apply (first_error_zero_in_range self_data r). }
  split; [exact (print_least_balanced_silent _ _ He)|]. split.
  - intros Hc.
    exact (sort_by_top Qlt_bool Idx.size Qlt_bool_asym Qlt_bool_ge_trans Qlt_bool_irrefl
             5 r self_data Hin Hc).
  - intros Hc.
    exact (sort_by_top Z.ltb Idx.shards Zltb_asym Zltb_ge_trans Z.ltb_irrefl
             5 r self_data Hin Hc).
Qed.

Lemma zero_shards_aborts_least_balanced_witness :
  AnalyzeData.raised
    (AnalyzeData.print_least_balanced [rec0 "A" 10 5; rec0 "B" 90 0; rec0 "C" 1 1])
  = Some ZeroDivisionError
  /\ AnalyzeData.printed
       (AnalyzeData.print_least_balanced [rec0 "A" 10 5; rec0 "B" 90 0; rec0 "C" 1 1])
     = []
  /\ In (rec0 "B" 90 0) (top_by_size [rec0 "A" 10 5; rec0 "B" 90 0; rec0 "C" 1 1])
  /\ In (rec0 "B" 90 0) (top_by_shards [rec0 "A" 10 5; rec0 "B" 90 0; rec0 "C" 1 1]).
Proof.
  assert (Hin : In (rec0 "B" 90 0) [rec0 "A" 10 5; rec0 "B" 90 0; rec0 "C" 1 1])
    by (right; left; reflexivity).
  destruct (zero_shards_aborts_least_balanced _ _ Hin eq_refl) as (_ & Hz & Hp & Hs & Hc).
  split; [apply Hz; repeat constructor|].
  split; [exact Hp|].
  split; [apply Hs|apply Hc]; vm_compute; lia.
Defined.

(** C2.  The size and shard-count reports never raise, and on the empty
    data set none of the three reports shows an item.  The least-balanced
    report is not total: it raises the exception of the first record whose
    division [size / shards] raises, and it completes exactly when every
    shard count is non-zero and small enough for a float.  With shard
    counts in the float range it raises [ZeroDivisionError] exactly when
    some record has [shards == 0]. *)
Theorem analyzer_totality :
  (forall self_data,
      AnalyzeData.raised (AnalyzeData.print_largest_indexes self_data) = None
      /\ AnalyzeData.raised (AnalyzeData.print_most_shards self_data) = None
      /\ AnalyzeData.raised (AnalyzeData.print_least_balanced self_data)
         = first_error self_data
      /\ (AnalyzeData.raised (AnalyzeData.print_least_balanced self_data) = None
          <-> Forall (fun r => Idx.shards r <> 0 /\ Z.abs (Idx.shards r) < FLOAT_LIMIT)
                     self_data)
      /\ (Forall (fun r => Z.abs (Idx.shards r) < FLOAT_LIMIT) self_data ->
          AnalyzeData.raised (AnalyzeData.print_least_balanced self_data)
          = if existsb zero_shards self_data then Some ZeroDivisionError else None))
  /\ AnalyzeData.print_largest_indexes []
     = AnalyzeData.mkRun [] [Text "Printing largest indexes by storage size"] None
  /\ AnalyzeData.print_most_shards []
     = AnalyzeData.mkRun [] [Text "Printing largest indexes by shard count"] None
  /\ AnalyzeData.print_least_balanced []
     = AnalyzeData.mkRun [] [Text "Printing least balanced indexes"] None
  /\ AnalyzeData.raised (AnalyzeData.print_least_balanced [rec0 "B" 90 0])
     = Some ZeroDivisionError.
Proof.
  split; [|repeat split].
  intros self_data. rewrite print_largest_indexes_eq, print_most_shards_eq.
  split; [reflexivity|]. split; [reflexivity|].
  rewrite print_least_balanced_raised.
  split; [reflexivity|]. split; [apply first_error_none_iff|].
  intros Hall. destruct (existsb zero_shards self_data) eqn:E.
  - apply existsb_exists in E. destruct E as (r & Hin & Hz).
    apply Z.eqb_eq in Hz. now apply (first_error_zero_in_range self_data r).
  - apply first_error_none_iff. apply List.Forall_forall. intros r Hin.
    rewrite List.Forall_forall in Hall. split; [|now apply Hall].
    intros Hz. assert (Hex : existsb zero_shards self_data = true).
    { apply existsb_exists. exists r. split; [exact Hin|]. now apply Z.eqb_eq. }
    congruence.
Qed.

(** C3.  The size and shard-count reports leave [self.data] as it is.  The
    least-balanced report writes into the dicts of [self.data], but only
    the keys [balance_ratio] and [rec_shard_count]: every dict keeps its
    [index], [size] and [shards], whether the call completes or raises.
    What the size and shard-count reports print is the same before and
    after a least-balanced report. *)
Theorem analyzer_frame (self_data : list Idx.t) :
  let after := AnalyzeData.data (AnalyzeData.print_least_balanced self_data) in
  AnalyzeData.data (AnalyzeData.print_largest_indexes self_data) = self_data
  /\ AnalyzeData.data (AnalyzeData.print_most_shards self_data) = self_data
  /\ Forall2 Idx.same_canonical self_data after
  /\ AnalyzeData.printed (AnalyzeData.print_largest_indexes after)
     = AnalyzeData.printed (AnalyzeData.print_largest_indexes self_data)
  /\ AnalyzeData.printed (AnalyzeData.print_most_shards after)
     = AnalyzeData.printed (AnalyzeData.print_most_shards self_data).
Proof.
  intros after. pose proof (print_least_balanced_frame self_data) as H.
  fold after in H. rewrite !print_largest_indexes_eq, !print_most_shards_eq.
  cbn [AnalyzeData.data AnalyzeData.printed].
  repeat split; try exact H.
  - f_equal. symmetry. now apply top_by_size_frame.
  - f_equal. symmetry. now apply top_by_shards_frame.
Qed.







(** * Further properties *)

(** ** The shard-count and least-balanced rankings *)

(** X1. [print_most_shards] ranks [self.data] by decreasing shard count:
    the sorted list is a permutation of the data, no item has fewer shards
    than an item after it, items with the same shard count keep their
    input order, and the report shows the first five items of it. *)
Theorem top_by_shards_stable_descending (self_data : list Idx.t) :
  exists sorted,
    AnalyzeData.sorted_largest_shard_count self_data = inr sorted
    /\ Permutation sorted self_data
    /\ StronglySorted (fun a b => Idx.shards b <= Idx.shards a) sorted
    /\ (forall k,
          List.filter (fun x => Idx.shards x =? k) sorted
          = List.filter (fun x => Idx.shards x =? k) self_data)
    /\ top_by_shards self_data = firstn 5 sorted
    /\ length (top_by_shards self_data) = Nat.min 5 (length self_data)
    /\ AnalyzeData.print_most_shards self_data
       = AnalyzeData.mkRun self_data (shards_report self_data) None.
Proof.
  exists (sort_by Z.ltb Idx.shards self_data).
  split; [apply py_sorted_reverse_total|].
  split; [apply sort_by_perm|].
  split.
  { eapply StronglySorted_weaken;
      [|apply (sort_by_sorted Z.ltb Idx.shards Zltb_asym Zltb_ge_trans)].
    intros a b H. cbn beta in H. lia. }
  split.
  { intros k. apply (sort_by_stable Z.ltb Idx.shards (fun s => s =? k)).
    intros a b. apply Zltb_eq_class. }
  split; [reflexivity|].
  split.
  { unfold top_by_shards. now rewrite length_firstn, sort_by_length. }
  apply print_most_shards_eq.
Qed.

Lemma first_error_balanced (l : list Idx.t) : first_error (map balanced l) = first_error l.
Proof.
  induction l as [|x l IH]; [reflexivity|]. cbn [map first_error balanced Idx.shards].
  now rewrite IH.
Qed.

Lemma balanced_idempotent (index : Idx.t) : balanced (balanced index) = balanced index.
Proof. reflexivity. Qed.

Lemma map_balanced_idempotent (l : list Idx.t) :
  map balanced (map balanced l) = map balanced l.
Proof. rewrite map_map. apply map_ext. intros x. apply balanced_idempotent. Qed.

Lemma sorted_least_balanced_balanced (l : list Idx.t) :
  AnalyzeData.sorted_least_balanced (map balanced l)
  = inr (sort_by Z.ltb ratio_key (map balanced l)).
Proof.
  unfold AnalyzeData.sorted_least_balanced, py_sorted_reverse.
  rewrite (decorate_ext _ (fun x => ret (ratio_key x))).
  - now rewrite decorate_total.
  - apply List.Forall_forall. intros x Hx. apply in_map_iff in Hx.
    destruct Hx as [y [<- _]]. reflexivity.
Qed.

(** X2. When every shard count is non-zero and within the float range,
    [print_least_balanced] completes, leaves every dict of [self.data]
    with both analysis keys written, and ranks the dicts by decreasing
    [balance_ratio]: a permutation, no item with a smaller ratio before a
    larger one, input order kept among equal ratios, the first five
    shown. *)
Theorem least_balanced_ranking (self_data : list Idx.t) :
  Forall (fun r => Idx.shards r <> 0 /\ Z.abs (Idx.shards r) < FLOAT_LIMIT) self_data ->
  exists sorted,
    AnalyzeData.print_least_balanced self_data
    = AnalyzeData.mkRun (map balanced self_data)
        (Text "Printing least balanced indexes" :: flat_map balance_lines (firstn 5 sorted))
        None
    /\ AnalyzeData.sorted_least_balanced (map balanced self_data) = inr sorted
    /\ Permutation sorted (map balanced self_data)
    /\ StronglySorted (fun a b => ratio_key b <= ratio_key a) sorted
    /\ (forall k,
          List.filter (fun x => ratio_key x =? k) sorted
          = List.filter (fun x => ratio_key x =? k) (map balanced self_data))
    /\ length (firstn 5 sorted) = Nat.min 5 (length self_data).
Proof.
  intros H. apply first_error_none_iff in H.
  exists (sort_by Z.ltb ratio_key (map balanced self_data)).
  split; [now apply print_least_balanced_ok|].
  split; [apply sorted_least_balanced_balanced|].
  split; [apply sort_by_perm|].
  split.
  { eapply StronglySorted_weaken;
      [|apply (sort_by_sorted Z.ltb ratio_key Zltb_asym Zltb_ge_trans)].
    intros a b Hab. cbn beta in Hab. lia. }
  split.
  { intros k. apply (sort_by_stable Z.ltb ratio_key (fun s => s =? k)).
    intros a b. apply Zltb_eq_class. }
  now rewrite length_firstn, sort_by_length, length_map.
Qed.

Lemma least_balanced_ranking_witness :
  exists sorted,
    AnalyzeData.print_least_balanced [rec0 "A" 10 5; rec0 "B" 90 3; rec0 "C" 60 2]
    = AnalyzeData.mkRun
        (map balanced [rec0 "A" 10 5; rec0 "B" 90 3; rec0 "C" 60 2])
        (Text "Printing least balanced indexes" :: flat_map balance_lines (firstn 5 sorted))
        None
    /\ map Idx.index sorted = [VStr (str "B"); VStr (str "C"); VStr (str "A")].
Proof.
  destruct (least_balanced_ranking [rec0 "A" 10 5; rec0 "B" 90 3; rec0 "C" 60 2])
    as (sorted & Hrun & Hsorted & _).
  { repeat constructor; vm_compute; congruence. }
  exists sorted. split; [exact Hrun|].
  vm_compute in Hsorted. injection Hsorted as <-. reflexivity.
Defined.

(** X3. When the first record whose division raises stands after the
    records [l1], [print_least_balanced] raises having written the
    analysis keys into the dicts of [l1] and into no other: the failing
    dict and those after it are as they were, and nothing is printed.  A
    zero shard count raises [ZeroDivisionError], one too large for a float
    [OverflowError]. *)
Theorem least_balanced_stops_at_first_zero (l1 l2 : list Idx.t) (r : Idx.t) :
  Forall (fun x => Idx.shards x <> 0 /\ Z.abs (Idx.shards x) < FLOAT_LIMIT) l1 ->
  Idx.shards r = 0 \/ FLOAT_LIMIT <= Z.abs (Idx.shards r) ->
  AnalyzeData.print_least_balanced (l1 ++ r :: l2)
  = AnalyzeData.mkRun (map balanced l1 ++ r :: l2) []
      (Some (if Idx.shards r =? 0 then ZeroDivisionError else OverflowError)).
Proof.
  intros H1 Hr. apply first_error_none_iff in H1.
  apply print_least_balanced_err; [exact H1|].
  unfold division_error. destruct Hr as [Hr|Hr].
  - rewrite Hr. reflexivity.
  - replace (FLOAT_LIMIT <=? Z.abs (Idx.shards r)) with true by (symmetry; now apply Z.leb_le).
    destruct (Z.eqb_spec (Idx.shards r) 0) as [E|E]; [|reflexivity].
    rewrite E in Hr. vm_compute in Hr. contradiction.
Qed.

Lemma least_balanced_stops_at_first_zero_witness :
  AnalyzeData.print_least_balanced ([rec0 "A" 10 5] ++ rec0 "B" 90 0 :: [rec0 "C" 1 0])
  = AnalyzeData.mkRun
      [Idx.mk (VStr (str "A")) 10 5 (Some 2) (Some 1); rec0 "B" 90 0; rec0 "C" 1 0]
      [] (Some ZeroDivisionError).
Proof.
  rewrite (least_balanced_stops_at_first_zero [rec0 "A" 10 5] [rec0 "C" 1 0] (rec0 "B" 90 0)).
  - vm_compute. reflexivity.
  - repeat constructor; vm_compute; congruence.
  - left. reflexivity.
Defined.

(** X4. [print_least_balanced] is idempotent: calling it again on the data
    it left behind gives the same data, the same lines and the same
    exception. *)
Theorem print_least_balanced_idempotent (self_data : list Idx.t) :
  AnalyzeData.print_least_balanced
    (AnalyzeData.data (AnalyzeData.print_least_balanced self_data))
  = AnalyzeData.print_least_balanced self_data.
Proof.
  destruct (first_error self_data) as [e|] eqn:E.
  - destruct (first_error_split _ _ E) as (l1 & r & l2 & -> & H1 & Hr).
    rewrite (print_least_balanced_err l1 l2 r e H1 Hr). cbn [AnalyzeData.data].
    rewrite (print_least_balanced_err (map balanced l1) l2 r e);
      [|now rewrite first_error_balanced|exact Hr].
    now rewrite map_balanced_idempotent.
  - rewrite (print_least_balanced_ok _ E). cbn [AnalyzeData.data].
    rewrite print_least_balanced_ok by (now rewrite first_error_balanced).
    unfold least_balanced. now rewrite !map_balanced_idempotent.
Qed.

(** ** The two analysis formulas *)

(** X5. The recommended shard count never decreases when the size grows,
    and it is never negative. *)
Theorem rec_shard_count_monotone (small large : Idx.t) :
  (Idx.size small <= Idx.size large)%Q ->
  exists small' large' n m,
    AnalyzeData.assign_rec_shard_count small = (small', None)
    /\ AnalyzeData.assign_rec_shard_count large = (large', None)
    /\ Idx.rec_shard_count small' = Some n
    /\ Idx.rec_shard_count large' = Some m
    /\ 0 <= n <= m.
Proof.
  intros H.
  exists (Idx.set_rec_shard_count (recommended (Idx.size small)) small),
         (Idx.set_rec_shard_count (recommended (Idx.size large)) large),
         (recommended (Idx.size small)), (recommended (Idx.size large)).
  split; [apply assign_rec_shard_count_eq|].
  split; [apply assign_rec_shard_count_eq|].
  split; [reflexivity|]. split; [reflexivity|].
  split; [apply recommended_nonneg|now apply recommended_monotone].
Qed.

Lemma rec_shard_count_monotone_witness :
  exists small' large' n m,
    AnalyzeData.assign_rec_shard_count (rec0 "A" (float (2999 # 100)) 1) = (small', None)
    /\ AnalyzeData.assign_rec_shard_count (rec0 "B" (float 95) 1) = (large', None)
    /\ Idx.rec_shard_count small' = Some n
    /\ Idx.rec_shard_count large' = Some m
    /\ 0 <= n <= m.
Proof.
  apply (rec_shard_count_monotone (rec0 "A" (float (2999 # 100)) 1) (rec0 "B" (float 95) 1)).
  vm_compute. discriminate.
Defined.

Lemma float_limit_above_2_53 : 2 ^ 53 < FLOAT_LIMIT.
Proof. vm_compute. reflexivity. Qed.

(** X6. The two formulas fit together: for a float size of at least 30 GB
    and below [2^53], an index that had exactly the recommended number of
    shards would get a balance ratio of at least 30 and below 60. *)
Theorem recommended_shards_reach_target (index : Idx.t) :
  (30 <= Idx.size index)%Q ->
  moderate (Idx.size index) ->
  exists index' n resharded ratio,
    AnalyzeData.assign_rec_shard_count index = (index', None)
    /\ Idx.rec_shard_count index' = Some n
    /\ 1 <= n
    /\ AnalyzeData.balance_body (Idx.mk (Idx.index index) (Idx.size index) n None None)
       = (resharded, None)
    /\ Idx.balance_ratio resharded = Some ratio
    /\ 30 <= ratio < 60.
Proof.
  intros H Hm. set (size := Idx.size index) in *.
  pose proof (recommended_from_30 size H) as H1.
  pose proof (recommended_floor size H Hm) as Hn.
  pose proof (Qfloor_le (size / 30)) as Hlo.
  pose proof (Qlt_floor (size / 30)) as Hhi.
  rewrite inject_Z_plus in Hhi. change (inject_Z 1) with 1%Q in Hhi.
  rewrite <- Hn in Hlo, Hhi.
  assert (Hq1 : (1 <= inject_Z (recommended size))%Q).
  { change 1%Q with (inject_Z 1). now rewrite <- Zle_Qle. }
  assert (Hs : (size == size / 30 * 30)%Q) by field.
  assert (Hb : (Qabs size < 2 ^ 53)%Q) by exact (proj2 Hm).
  rewrite (Qabs_pos size) in Hb by lra.
  assert (Hn53 : recommended size <= 2 ^ 53).
  { rewrite Zle_Qle. change (inject_Z (2 ^ 53)) with (2 ^ 53)%Q. lra. }
  assert (Hdiv : division_error (recommended size) = None).
  { apply division_error_none_iff. pose proof float_limit_above_2_53. lia. }
  assert (Hr : ratio size (recommended size)
               = py_int_of_float (size / inject_Z (recommended size))).
  { apply ratio_trunc; [exact Hm|lia|lia]. }
  exists (Idx.set_rec_shard_count (recommended size) index), (recommended size),
         (balanced (Idx.mk (Idx.index index) size (recommended size) None None)),
         (ratio size (recommended size)).
  split; [apply assign_rec_shard_count_eq|]. split; [reflexivity|].
  split; [exact H1|].
  split; [apply balance_body_ok; exact Hdiv|]. split; [reflexivity|].
  rewrite Hr. clear Hr Hdiv Hn53 Hn.
  generalize dependent (inject_Z (recommended size)). intros k Hlo Hhi Hk.
  assert (Hlow : (30 <= size / k)%Q) by (apply Qle_shift_div_l; lra).
  assert (Hupp : (size / k < 60)%Q) by (apply Qlt_shift_div_r; lra).
  rewrite py_int_of_float_floor by lra.
  split.
  - change 30 with (Qfloor 30). now apply Qfloor_resp_le.
  - rewrite Zlt_Qlt. eapply Qle_lt_trans; [apply Qfloor_le|]. exact Hupp.
Qed.

Lemma recommended_shards_reach_target_witness :
  exists index' n resharded ratio,
    AnalyzeData.assign_rec_shard_count (rec0 "A" (float (8999 # 100)) 1) = (index', None)
    /\ Idx.rec_shard_count index' = Some n
    /\ 1 <= n
    /\ AnalyzeData.balance_body (Idx.mk (VStr (str "A")) (float (8999 # 100)) n None None)
       = (resharded, None)
    /\ Idx.balance_ratio resharded = Some ratio
    /\ 30 <= ratio < 60.
Proof.
  apply (recommended_shards_reach_target (rec0 "A" (float (8999 # 100)) 1)).
  - vm_compute. discriminate.
  - split; vm_compute; reflexivity.
Defined.

(** X7. For a float size below [2^53] in magnitude and a non-zero shard
    count of magnitude up to [2^53], [balance_ratio] is the exact quotient
    rounded toward zero, whatever the signs: its floor when [size / shards]
    is not negative, its ceiling when it is not positive. *)
Theorem balance_ratio_truncates (index : Idx.t) :
  moderate (Idx.size index) ->
  Idx.shards index <> 0 ->
  Z.abs (Idx.shards index) <= 2 ^ 53 ->
  exists index' ratio,
    AnalyzeData.balance_body index = (index', None)
    /\ Idx.balance_ratio index' = Some ratio
    /\ ((0 <= Idx.size index / inject_Z (Idx.shards index))%Q ->
        ratio = Qfloor (Idx.size index / inject_Z (Idx.shards index)))
    /\ ((Idx.size index / inject_Z (Idx.shards index) <= 0)%Q ->
        ratio = Qceiling (Idx.size index / inject_Z (Idx.shards index))).
Proof.
  intros Hm Hs Hb.
  exists (balanced index), (ratio (Idx.size index) (Idx.shards index)).
  split.
  { apply balance_body_ok. apply division_error_none_iff.
    pose proof float_limit_above_2_53. lia. }
  split; [reflexivity|]. rewrite (ratio_trunc _ _ Hm Hs Hb). split.
  - apply py_int_of_float_floor.
  - apply py_int_of_float_ceiling.
Qed.

Lemma balance_ratio_truncates_witness :
  exists index',
    AnalyzeData.balance_body (rec0 "n" (-10) 3) = (index', None)
    /\ Idx.balance_ratio index' = Some (-3).
Proof.
  destruct (balance_ratio_truncates (rec0 "n" (-10) 3)) as (index' & ratio & Hb & Hr & _ & Hc).
  - split; vm_compute; reflexivity.
  - vm_compute. discriminate.
  - vm_compute. discriminate.
  - exists index'. split; [exact Hb|].
    rewrite Hr. f_equal. apply Hc. vm_compute. discriminate.
Defined.

(** ** More on [refine_data] *)

(** X8. [refine_data] treats the entries independently and in order:
    refining two lists one after the other and joining the results gives
    what refining the joined list gives, for the records and for the
    errors.  Nothing is reordered, merged or dropped across entries. *)
Theorem refine_data_concat (l1 l2 : list PyVal) :
  exists r1 e1 r2 e2,
    refine_data (VList l1) = inr (r1, report_errors e1)
    /\ refine_data (VList l2) = inr (r2, report_errors e2)
    /\ refine_loop l1 [] [] = (r1, e1)
    /\ refine_loop l2 [] [] = (r2, e2)
    /\ refine_loop (l1 ++ l2) [] [] = (r1 ++ r2, e1 ++ e2)
    /\ refine_data (VList (l1 ++ l2)) = inr (r1 ++ r2, report_errors (e1 ++ e2)).
Proof.
  exists (valid_of l1), (invalid_of l1), (valid_of l2), (invalid_of l2).
  split; [now apply refine_data_iterable|].
  split; [now apply refine_data_iterable|].
  split; [apply refine_loop_spec|]. split; [apply refine_loop_spec|].
  split.
  - rewrite refine_loop_spec. now rewrite valid_of_app, invalid_of_app.
  - rewrite (refine_data_iterable (VList (l1 ++ l2)) _ eq_refl).
    now rewrite valid_of_app, invalid_of_app.
Qed.

(** X9. [refine_data] reads the three fields it needs and nothing else: a
    field under any other name changes neither the record produced nor the
    exception raised. *)
Theorem refine_entry_ignores_other_fields
    (d : gmap PyStr PyVal) (k : PyStr) (v : PyVal) :
  k <> str "index" -> k <> str "pri.store.size" -> k <> str "pri" ->
  refine_entry (VDict (<[k := v]> d)) = refine_entry (VDict d).
Proof.
  intros H1 H2 H3. rewrite !refine_entry_dict.
  now rewrite !lookup_insert_ne by assumption.
Qed.

Lemma refine_entry_ignores_other_fields_witness :
  refine_entry (VDict (<[str "health" := VStr (str "green")]>
                         (<[str "index" := VStr (str "a")]>
                            (<[str "pri.store.size" := VStr (str "1234567891")]>
                               (<[str "pri" := VStr (str "3")]> ∅)))))
  = inr (Idx.mk (VStr (str "a")) (float (123 # 100)) 3 None None).
Proof.
  rewrite (refine_entry_ignores_other_fields _ (str "health") (VStr (str "green")));
    [vm_compute; reflexivity|vm_compute; discriminate|vm_compute; discriminate
    |vm_compute; discriminate].
Defined.

(** X10. A bulk input that is a JSON object or a string instead of an
    array is not refused: its keys (or its characters) are taken as the
    entries, every one of them is reported as an error, no record is
    produced, and [main] goes on to print that the data could not be
    analyzed and returns. *)
Theorem refine_data_object_or_string (raw_data : PyVal) (out : list Event) :
  match raw_data with VDict _ | VStr _ => True | _ => False end ->
  exists items,
    py_iter raw_data = inr items
    /\ refine_data raw_data = inr ([], report_errors items)
    /\ refine_and_analyze raw_data out
       = mkMain (out ++ map Printed (report_errors items)
                     ++ [Printed (Text "Data could not be analyzed.")])
                Completed.
Proof.
  intros H.
  assert (Hit : exists items, py_iter raw_data = inr items
                /\ Forall (fun x => match x with VDict _ => False | _ => True end) items).
  { destruct raw_data; try contradiction; eexists; (split; [reflexivity|]);
      apply List.Forall_forall; intros x Hx; apply in_map_iff in Hx;
      destruct Hx as [y [<- _]]; exact I. }
  destruct Hit as (items & Hiter & Hall). exists items.
  destruct (valid_of_no_dict items Hall) as [Hv Hi].
  assert (E : refine_data raw_data = inr ([], report_errors items)).
  { rewrite (refine_data_iterable _ _ Hiter). now rewrite Hv, Hi. }
  split; [exact Hiter|]. split; [exact E|].
  unfold refine_and_analyze. rewrite E. now rewrite <- app_assoc.
Qed.

Lemma refine_data_object_or_string_witness :
  refine_and_analyze (VStr (str "ok")) []
  = mkMain [Printed (LErrors [VStr (str "o"); VStr (str "k")]);
            Printed (Text "Data could not be analyzed.")]
           Completed.
Proof.
  destruct (refine_data_object_or_string (VStr (str "ok")) [] I) as (items & Hit & _ & H).
  injection Hit as <-. exact H.
Defined.

Lemma numeral_in_float_range : 10 ^ 317 <= FLOAT_LIMIT * 1000 ^ 3.
Proof. vm_compute. discriminate. Qed.

(** X11. An entry whose byte size and shard count are strings of ASCII
    decimal digits (as the server sends them) converts when the byte size
    has at most 317 digits and the shard count at most 4300: the shard
    count is the number the digits denote and the size is that number of
    bytes divided by [1000**3] and rounded to two decimals, whatever the
    index name is.  A byte size of more than 4300 digits is refused by
    [int]. *)
Theorem refine_entry_accepts_numerals (name : PyVal) (bytes pri : list nat) :
  bytes <> [] -> pri <> [] ->
  Forall (fun d => (d < 10)%nat) bytes ->
  Forall (fun d => (d < 10)%nat) pri ->
  ((length bytes <= 317)%nat -> (length pri <= 4300)%nat ->
   exists gb,
     py_int_truediv (digits_value bytes) (1000 ^ 3) = inr gb
     /\ refine_entry (raw name (VStr (digits_string bytes)) (VStr (digits_string pri)))
        = inr (Idx.mk name (py_round gb 2) (digits_value pri) None None))
  /\ ((4300 < length bytes)%nat ->
      refine_entry (raw name (VStr (digits_string bytes)) (VStr (digits_string pri)))
      = inl ValueError).
Proof.
  intros Hb Hp Hbd Hpd.
  assert (E : refine_entry (raw name (VStr (digits_string bytes)) (VStr (digits_string pri)))
              = let* bytes := py_int (VStr (digits_string bytes)) in
                let* gb := py_int_truediv bytes (1000 ^ 3) in
                let* shards := py_int (VStr (digits_string pri)) in
                ret (Idx.mk name (py_round gb 2) shards None None)).
  { unfold raw. rewrite refine_entry_dict.
    rewrite lookup_insert_eq.
    rewrite lookup_insert_ne by (vm_compute; discriminate). rewrite lookup_insert_eq.
    rewrite !lookup_insert_ne by (vm_compute; discriminate). rewrite lookup_insert_eq.
    reflexivity. }
  split.
  - intros Lb Lp. rewrite E.
    rewrite (py_int_numeral bytes Hb Hbd) by (unfold MAX_STR_DIGITS; lia).
    rewrite (py_int_numeral pri Hp Hpd) by exact Lp.
    cbn [bind]. rewrite py_int_truediv_gb, b64_overflow_gb.
    pose proof (digits_value_bound bytes Hbd) as [B0 B1].
    assert (P : 10 ^ Z.of_nat (length bytes) <= 10 ^ 317) by (apply Z.pow_le_mono_r; lia).
    pose proof numeral_in_float_range as R.
    replace (Z.abs (digits_value bytes) <? FLOAT_LIMIT * 1000 ^ 3) with true
      by (symmetry; apply Z.ltb_lt; lia).
    cbn [negb bind ret]. eexists. split; reflexivity.
  - intros Lb. rewrite E. cbn [py_int]. unfold py_int_of_string.
    rewrite (count_digits_numeral bytes Hbd).
    replace (length bytes <=? MAX_STR_DIGITS)%nat with false
      by (symmetry; apply Nat.leb_gt; exact Lb).
    reflexivity.
Qed.

Lemma refine_entry_accepts_numerals_witness :
  refine_entry (raw (VStr (str "a")) (VStr (str "0090000000000")) (VStr (str "3")))
  = inr (Idx.mk (VStr (str "a")) (float 90) 3 None None).
Proof.
  destruct (refine_entry_accepts_numerals (VStr (str "a"))
              [0; 0; 9; 0; 0; 0; 0; 0; 0; 0; 0; 0; 0]%nat [3%nat]
              ltac:(discriminate) ltac:(discriminate)
              ltac:(repeat constructor) ltac:(repeat constructor)) as [H _].
  destruct H as (gb & Hgb & Hr); [vm_compute; lia|vm_compute; lia|].
  vm_compute in Hgb. injection Hgb as <-.
  etransitivity; [exact Hr|]. vm_compute. reflexivity.
Defined.

(** ** get_data_from_server *)

Lemma server_loop_passes (fetch : Z -> Response) (today : Z) (offsets : list nat)
    (all_data : list PyVal) (out : list Event) :
  Forall (day_passes fetch today) offsets ->
  server_loop fetch today offsets all_data out
  = (out ++ flat_map (day_events fetch today) offsets,
     inr (all_data ++ flat_map (fun i => day_items (fetch (today - Z.of_nat i))) offsets)).
Proof.
  intros H. revert all_data out.
  induction H as [|i rest [Hd He] _ IH]; intros all_data out.
  - cbn. now rewrite !app_nil_r.
  - cbn [server_loop flat_map]. unfold day_events at 1.
    replace (today - Z.of_nat i <? 1) with false by (symmetry; apply Z.ltb_ge; lia).
    unfold day_error in He. unfold day_items at 1.
    destruct (fetch (today - Z.of_nat i)) as [err|e|v].
    + rewrite IH. cbn [app]. rewrite <- !app_assoc. reflexivity.
    + discriminate.
    + destruct (py_iter v) as [e|items]; [discriminate|].
      rewrite IH. rewrite <- !app_assoc. reflexivity.
Qed.

Lemma server_loop_stops (fetch : Z -> Response) (today : Z) (before after : list nat)
    (i : nat) (e : PyExc) (all_data : list PyVal) (out : list Event) :
  Forall (day_passes fetch today) before ->
  1 <= today - Z.of_nat i ->
  day_error (fetch (today - Z.of_nat i)) = Some e ->
  server_loop fetch today (before ++ i :: after) all_data out
  = (out ++ flat_map (day_events fetch today) before ++ [PrintedDate (today - Z.of_nat i)],
     inl e).
Proof.
  intros H Hd He. revert all_data out.
  induction H as [|j rest [Hjd Hje] _ IH]; intros all_data out.
  - cbn [app flat_map server_loop].
    replace (today - Z.of_nat i <? 1) with false by (symmetry; apply Z.ltb_ge; lia).
    unfold day_error in He.
    destruct (fetch (today - Z.of_nat i)) as [err|e'|v].
    + discriminate.
    + now injection He as ->.
    + destruct (py_iter v) as [e'|items]; [|discriminate]. now injection He as ->.
  - cbn [app server_loop flat_map]. unfold day_events at 1.
    replace (today - Z.of_nat j <? 1) with false by (symmetry; apply Z.ltb_ge; lia).
    unfold day_error in Hje.
    destruct (fetch (today - Z.of_nat j)) as [err|e'|v].
    + rewrite IH. cbn [app]. rewrite <- !app_assoc. reflexivity.
    + discriminate.
    + destruct (py_iter v) as [e'|items]; [discriminate|].
      rewrite IH. rewrite <- !app_assoc. reflexivity.
Qed.

Lemma server_loop_underflow (fetch : Z -> Response) (today : Z) (before after : list nat)
    (i : nat) (all_data : list PyVal) (out : list Event) :
  Forall (day_passes fetch today) before ->
  today - Z.of_nat i < 1 ->
  server_loop fetch today (before ++ i :: after) all_data out
  = (out ++ flat_map (day_events fetch today) before, inl OverflowError).
Proof.
  intros H Hd. revert all_data out.
  induction H as [|j rest [Hjd Hje] _ IH]; intros all_data out.
  - cbn [app flat_map server_loop].
    replace (today - Z.of_nat i <? 1) with true by (symmetry; apply Z.ltb_lt; lia).
    now rewrite app_nil_r.
  - cbn [app server_loop flat_map]. unfold day_events at 1.
    replace (today - Z.of_nat j <? 1) with false by (symmetry; apply Z.ltb_ge; lia).
    unfold day_error in Hje.
    destruct (fetch (today - Z.of_nat j)) as [err|e'|v].
    + rewrite IH. cbn [app]. rewrite <- !app_assoc. reflexivity.
    + discriminate.
    + destruct (py_iter v) as [e'|items]; [discriminate|].
      rewrite IH. rewrite <- !app_assoc. reflexivity.
Qed.

Lemma seq_split_at (n k : nat) :
  (k < n)%nat -> seq 0 n = seq 0 k ++ k :: seq (S k) (n - S k).
Proof.
  intros H. replace n with (k + S (n - S k))%nat at 1 by lia.
  rewrite seq_app. reflexivity.
Qed.

(** X12. When no visited day stops the retrieval, [get_data_from_server]
    returns the entries of the days in the order the days are queried,
    today first: a day whose request failed adds nothing and is reported,
    the other days add their entries.  With [days <= 0] no day is queried
    and the result is empty. *)
Theorem get_data_from_server_collects (fetch : Z -> Response) (today days : Z) :
  days <= today ->
  (forall i, Z.of_nat i < days -> day_error (fetch (today - Z.of_nat i)) = None) ->
  get_data_from_server fetch today days
  = (Printed (Text "Getting data from server...")
       :: flat_map (day_events fetch today) (seq 0 (Z.to_nat days)),
     inr (flat_map (fun i => day_items (fetch (today - Z.of_nat i)))
                   (seq 0 (Z.to_nat days)))).
Proof.
  intros Hd Hok. unfold get_data_from_server.
  rewrite server_loop_passes; [reflexivity|].
  apply List.Forall_forall. intros i Hi. apply in_seq in Hi.
  split; [lia|]. apply Hok. lia.
Qed.

Lemma get_data_from_server_collects_witness :
  get_data_from_server
    (fun d => if d =? 100 then Json (VList [VInt 1; VInt 2])
              else if d =? 99 then RequestFailed "timeout"
              else Json (VList [VInt 3]))
    100 3
  = ([Printed (Text "Getting data from server..."); PrintedDate 100; PrintedDate 99;
      PrintedFailure 99 "timeout"; PrintedDate 98],
     inr [VInt 1; VInt 2; VInt 3]).
Proof.
  rewrite get_data_from_server_collects; [reflexivity|lia|].
  intros i Hi.
  destruct i as [|[|[|i]]]; [reflexivity|reflexivity|reflexivity|lia].
Defined.

(** X13. The first day whose response raises something other than a
    request failure, or is not iterable, ends the retrieval: the exception
    leaves [get_data_from_server], the entries of the earlier days are
    lost with it, and [main] exits through [sys.exit] without refining or
    reporting anything. *)
Theorem get_data_from_server_aborts
    (fetch : Z -> Response) (today days : Z) (k : nat) (e : PyExc)
    (file : string + PyVal) :
  Z.of_nat k < days ->
  Z.of_nat k < today ->
  (forall j, (j < k)%nat -> day_error (fetch (today - Z.of_nat j)) = None) ->
  day_error (fetch (today - Z.of_nat k)) = Some e ->
  get_data_from_server fetch today days
  = (Printed (Text "Getting data from server...")
       :: flat_map (day_events fetch today) (seq 0 k) ++ [PrintedDate (today - Z.of_nat k)],
     inl e)
  /\ main false days file fetch today
     = mkMain (Printed (Text "Getting data from server...")
                 :: flat_map (day_events fetch today) (seq 0 k)
                 ++ [PrintedDate (today - Z.of_nat k)])
              (SysExit (ApiError e)).
Proof.
  intros Hk Ht Hok He.
  assert (E : get_data_from_server fetch today days
              = (Printed (Text "Getting data from server...")
                   :: flat_map (day_events fetch today) (seq 0 k)
                   ++ [PrintedDate (today - Z.of_nat k)],
                 inl e)).
  { unfold get_data_from_server.
    rewrite (seq_split_at (Z.to_nat days) k) by lia.
    rewrite (server_loop_stops fetch today _ _ k e); [reflexivity| |lia|exact He].
    apply List.Forall_forall. intros j Hj. apply in_seq in Hj.
    split; [lia|]. apply Hok. lia. }
  split; [exact E|]. unfold main. now rewrite E.
Qed.

Lemma get_data_from_server_aborts_witness :
  main false 3 (inl "unused")
       (fun d => if d =? 100 then Json (VList [VInt 1; VInt 2]) else Json (VInt 7))
       100
  = mkMain [Printed (Text "Getting data from server..."); PrintedDate 100; PrintedDate 99]
           (SysExit (ApiError TypeError)).
Proof.
  apply (get_data_from_server_aborts
           (fun d => if d =? 100 then Json (VList [VInt 1; VInt 2]) else Json (VInt 7))
           100 3 1 TypeError (inl "unused")).
  - lia.
  - lia.
  - intros j Hj. destruct j as [|j]; [reflexivity|lia].
  - reflexivity.
Defined.

(** X14. Asking for more days than the calendar has before today makes the
    date subtraction raise [OverflowError] once every day back to the
    first date has been queried; the entries collected are lost. *)
Theorem get_data_from_server_before_first_date
    (fetch : Z -> Response) (today days : Z) :
  1 <= today < days ->
  (forall d, 1 <= d <= today -> day_error (fetch d) = None) ->
  get_data_from_server fetch today days
  = (Printed (Text "Getting data from server...")
       :: flat_map (day_events fetch today) (seq 0 (Z.to_nat today)),
     inl OverflowError).
Proof.
  intros Hd Hok. unfold get_data_from_server.
  rewrite (seq_split_at (Z.to_nat days) (Z.to_nat today)) by lia.
  rewrite server_loop_underflow; [reflexivity| |lia].
  apply List.Forall_forall. intros j Hj. apply in_seq in Hj.
  split; [lia|]. apply Hok. lia.
Qed.

Lemma get_data_from_server_before_first_date_witness :
  get_data_from_server (fun d => Json (VList [VInt d])) 2 5
  = ([Printed (Text "Getting data from server..."); PrintedDate 2; PrintedDate 1],
     inl OverflowError).
Proof.
  rewrite get_data_from_server_before_first_date; [reflexivity|lia|].
  intros d Hd. reflexivity.
Defined.

(** ** main *)

Lemma run_reports_eq (data : list Idx.t) (out : list Event) :
  run_reports data out
  = match first_error data with
    | Some e =>
        mkMain (out ++ map Printed (size_report data ++ shards_report data)) (Uncaught e)
    | None =>
        mkMain (out ++ map Printed (size_report data ++ shards_report data
                                      ++ balance_report data))
               Completed
    end.
Proof.
  unfold run_reports.
  rewrite print_largest_indexes_eq. cbn [AnalyzeData.raised AnalyzeData.data AnalyzeData.printed].
  rewrite print_most_shards_eq. cbn [AnalyzeData.raised AnalyzeData.data AnalyzeData.printed].
  fold (size_report data). fold (shards_report data).
  rewrite print_least_balanced_raised.
  destruct (first_error data) as [e|] eqn:E.
  - rewrite (print_least_balanced_silent data e E).
    cbn [map]. now rewrite app_nil_r, map_app, app_assoc.
  - rewrite (print_least_balanced_ok data E).
    cbn [AnalyzeData.printed]. fold (balance_report data).
    now rewrite !map_app, !app_assoc.
Qed.

Lemma refine_and_analyze_eq (raw_data : PyVal) (items : list PyVal) (out : list Event) :
  py_iter raw_data = inr items ->
  refine_and_analyze raw_data out
  = let data := valid_of items in
    let out := out ++ map Printed (report_errors (invalid_of items)) in
    match data with
    | [] => mkMain (out ++ [Printed (Text "Data could not be analyzed.")]) Completed
    | _ :: _ =>
        match first_error data with
        | Some e =>
            mkMain (out ++ map Printed (size_report data ++ shards_report data))
                   (Uncaught e)
        | None =>
            mkMain (out ++ map Printed (size_report data ++ shards_report data
                                          ++ balance_report data))
                   Completed
        end
    end.
Proof.
  intros H. unfold refine_and_analyze. rewrite (refine_data_iterable _ _ H).
  cbn zeta. destruct (valid_of items) as [|d data]; [reflexivity|].
  apply run_reports_eq.
Qed.

(** X15. From the refined data on, [main] prints in a fixed order: the
    errors of [refine_data] first, then the size report, the shard-count
    report and the least-balanced report.  When the division of some
    record raises (a zero shard count, or one too large for a float) the
    run ends with that exception uncaught after the first two reports have
    been printed in full and nothing of the third; when no entry
    converted, no report is started at all. *)
Theorem main_prints_reports_in_order (items : list PyVal) (out : list Event) :
  let data := valid_of items in
  let out' := out ++ map Printed (report_errors (invalid_of items)) in
  refine_and_analyze (VList items) out
  = match data with
    | [] => mkMain (out' ++ [Printed (Text "Data could not be analyzed.")]) Completed
    | _ :: _ =>
        match first_error data with
        | Some e =>
            mkMain (out' ++ map Printed (AnalyzeData.printed
                                           (AnalyzeData.print_largest_indexes data))
                         ++ map Printed (AnalyzeData.printed
                                           (AnalyzeData.print_most_shards data)))
                   (Uncaught e)
        | None =>
            mkMain (out' ++ map Printed (AnalyzeData.printed
                                           (AnalyzeData.print_largest_indexes data))
                         ++ map Printed (AnalyzeData.printed
                                           (AnalyzeData.print_most_shards data))
                         ++ map Printed (AnalyzeData.printed
                                           (AnalyzeData.print_least_balanced data)))
                   Completed
        end
    end
  /\ (forall e, first_error data = Some e -> e = ZeroDivisionError \/ e = OverflowError)
  /\ (first_error data = None
      <-> Forall (fun r => Idx.shards r <> 0 /\ Z.abs (Idx.shards r) < FLOAT_LIMIT) data).
Proof.
  intros data out'. split; [|split; [apply first_error_kind|apply first_error_none_iff]].
  rewrite (refine_and_analyze_eq (VList items) items out eq_refl).
  cbn zeta. fold data. fold out'.
  destruct data as [|d data'] eqn:Ed; [reflexivity|]. rewrite <- Ed. clear Ed.
  rewrite print_largest_indexes_eq, print_most_shards_eq.
  cbn [AnalyzeData.printed]. fold (size_report data). fold (shards_report data).
  destruct (first_error data) as [e|] eqn:E.
  - now rewrite map_app.
  - rewrite (print_least_balanced_ok data E). cbn [AnalyzeData.printed].
    fold (balance_report data). now rewrite !map_app.
Qed.

(** X16. With the server as the source, [main] never passes [refine_data]
    anything but a list, so the normaliser cannot raise there.  The run
    ends through [sys.exit] when the retrieval raised; otherwise with an
    uncaught [ZeroDivisionError] or [OverflowError] when the division of a
    converted entry raises, and by returning when none does. *)
Theorem main_server_mode_outcome
    (days : Z) (file : string + PyVal) (fetch : Z -> Response) (today : Z) :
  match get_data_from_server fetch today days with
  | (out, inl e) => main false days file fetch today = mkMain out (SysExit (ApiError e))
  | (out, inr raw_data) =>
      exit (main false days file fetch today)
      = match first_error (valid_of raw_data) with
        | Some e => Uncaught e
        | None => Completed
        end
      /\ (forall e, first_error (valid_of raw_data) = Some e ->
            e = ZeroDivisionError \/ e = OverflowError)
      /\ firstn (length out) (events (main false days file fetch today)) = out
  end.
Proof.
  unfold main. destruct (get_data_from_server fetch today days) as [out [e|raw_data]];
    [reflexivity|].
  rewrite (refine_and_analyze_eq (VList raw_data) raw_data out eq_refl). cbn zeta.
  split; [|split; [apply first_error_kind|]].
  - destruct (valid_of raw_data) as [|d data] eqn:Ed; [reflexivity|].
    destruct (first_error (d :: data)); reflexivity.
  - destruct (valid_of raw_data) as [|d data] eqn:Ed.
    + cbn [events]. rewrite <- app_assoc. apply take_app_length.
    + destruct (first_error (d :: data));
        cbn [events]; rewrite <- app_assoc; apply take_app_length.
Qed.

(** X17. With the file as the source: a file that cannot be read or
    decoded and a file that holds JSON [null] both end in the same
    [sys.exit]; a file that holds a number or a boolean ends with an
    uncaught [TypeError] raised by [len], before [refine_data] is called;
    an array, object or string goes on to [refine_data], and an empty one
    is announced first. *)
Theorem main_debug_mode_outcome
    (days : Z) (file : string + PyVal) (fetch : Z -> Response) (today : Z) :
  let run := main true days file fetch today in
  let start := Printed (Text "Getting data from JSON file") in
  match file with
  | inl err =>
      run = mkMain [start; Printed (Text (String.append "An error occurred: " err))]
                   (SysExit FileError)
  | inr VNone => run = mkMain [start] (SysExit FileError)
  | inr (VBool _) | inr (VInt _) | inr (VFloat _) => run = mkMain [start] (Uncaught TypeError)
  | inr raw_data =>
      exists n,
        py_len raw_data = inr n
        /\ run = refine_and_analyze raw_data
                   (if n =? 0
                    then [start; Printed (Text "JSON file contains no entries.")]
                    else [start])
        /\ exit run <> Uncaught TypeError
  end.
Proof.
  intros run start. subst run.
  assert (Hex : forall raw_data items out,
             py_iter raw_data = inr items ->
             exit (refine_and_analyze raw_data out) <> Uncaught TypeError).
  { intros raw_data items out H. rewrite (refine_and_analyze_eq _ _ _ H). cbn zeta.
    destruct (valid_of items) as [|d data]; [discriminate|].
    destruct (first_error (d :: data)) as [e|] eqn:E; [|discriminate].
    cbn [exit]. destruct (first_error_kind _ _ E) as [-> | ->]; discriminate. }
  destruct file as [err|[| | | | s | l | d]]; try reflexivity.
  - exists (Z.of_nat (length s)). split; [reflexivity|].
    assert (E : main true days (inr (VStr s)) fetch today
                = refine_and_analyze (VStr s)
                    (if Z.of_nat (length s) =? 0
                     then [start; Printed (Text "JSON file contains no entries.")]
                     else [start])).
    { unfold main. cbn [get_data_from_file py_len ret].
      destruct (Z.of_nat (length s) =? 0); reflexivity. }
    split; [exact E|]. rewrite E. eapply Hex. reflexivity.
  - exists (Z.of_nat (length l)). split; [reflexivity|].
    assert (E : main true days (inr (VList l)) fetch today
                = refine_and_analyze (VList l)
                    (if Z.of_nat (length l) =? 0
                     then [start; Printed (Text "JSON file contains no entries.")]
                     else [start])).
    { unfold main. cbn [get_data_from_file py_len ret].
      destruct (Z.of_nat (length l) =? 0); reflexivity. }
    split; [exact E|]. rewrite E. eapply Hex. reflexivity.
  - exists (Z.of_nat (size d)). split; [reflexivity|].
    assert (E : main true days (inr (VDict d)) fetch today
                = refine_and_analyze (VDict d)
                    (if Z.of_nat (size d) =? 0
                     then [start; Printed (Text "JSON file contains no entries.")]
                     else [start])).
    { unfold main. cbn [get_data_from_file py_len ret].
      destruct (Z.of_nat (size d) =? 0); reflexivity. }
    split; [exact E|]. rewrite E. eapply Hex. reflexivity.
Qed.
